(** * Chess Companion: the session state machine of [src/App.tsx]

    A shallow embedding of the React component [App] (its state cells, its
    event handlers, the auto-move effect and the continuation of the
    asynchronous oracle call) and of [getBestMoveOnline] from
    [src/stockfishAPI.ts], followed by the properties of the session
    (history, move log, cursor, oracle coordination) that the specification
    states about them.

    Vocabulary of the specification against the names of the code:
    history = [positions], moveLog = [moveHistory], cursor =
    [currentMoveIndex], oracleSide = [playerColor] (= [autoColor]),
    PendingAnalysis = [isAnalyzing], displayed position = [currentPosition]. *)

From Stdlib Require Import ZArith List Ascii String Bool Lia.
From Stdlib Require Import DecimalString.
Import ListNotations.
Open Scope string_scope.
Open Scope Z_scope.
Open Scope list_scope.

Set Implicit Arguments.

(** Left-to-right application, to write a handler's successive [setX] calls
    in the order of the source. *)
Notation "s |> f" := (f s) (at level 45, left associativity, only parsing).

(** ** The rules engine (chess.js), an external collaborator *)

Inductive Color := W | B.

Definition Color_eqb (a b : Color) : bool :=
  match a, b with
  | W, W | B, B => true
  | _, _ => false
  end.

Inductive PieceSymbol := Pawn | Knight | Bishop | Rook | Queen | King.

Record Piece := { ptype : PieceSymbol; color : Color }.

(** chess.js squares are strings ("e2"); the empty string is the only falsy
    one ([!from || !to] in [validateManualMove]). *)
Definition Square := string.

(** The move object chess.js returns; the code reads [move.to] ([mto]) and [move.san]. *)
Record Move := { mfrom : Square; mto : Square; san : string }.

(** What [newGame.move(...)] does: the move is made (the instance becomes
    [g'] and the move object is returned), the result is null, or an
    exception is raised (chess.js 1.x throws on an illegal move, older
    versions return null; the component handles both). *)
Inductive MoveOutcome (C : Type) :=
| Moved (g' : C) (m : Move)
| MoveNull
| MoveThrows.

Arguments Moved {C} g' m.
Arguments MoveNull {C}.
Arguments MoveThrows {C}.

(** The interface of chess.js as far as [App] uses it.  [Chess] is the
    state of a [Chess] instance; the component never mutates an instance
    that is stored in a state cell (every move is made on a fresh
    [new Chess(game.fen())]), so instances are values here. *)
Class RulesEngine := {
  Chess : Type;
  newChess : Chess;                       (* new Chess() *)
  loadFen : string -> Chess;              (* new Chess(fen) *)
  fen : Chess -> string;                  (* game.fen() *)
  turn : Chess -> Color;                  (* game.turn() *)
  isGameOver : Chess -> bool;
  isCheckmate : Chess -> bool;
  isDraw : Chess -> bool;
  isStalemate : Chess -> bool;
  isThreefoldRepetition : Chess -> bool;
  isInsufficientMaterial : Chess -> bool;
  get : Chess -> Square -> option Piece;  (* game.get(square), falsy when empty *)
  moves : Chess -> Square -> list Move;   (* game.moves({ square, verbose: true }) *)
  moveText : Chess -> string -> MoveOutcome Chess;   (* game.move(text) *)
  moveObject : Chess -> Square -> Square -> PieceSymbol -> MoveOutcome Chess
                                          (* game.move({ from, to, promotion }) *)
}.

(** ** The oracle: [getBestMoveOnline] (src/stockfishAPI.ts) *)

(** [response.data] of the HTTP call: [success] by its truthiness,
    [bestmove] a string or missing. *)
Record ApiData := { success : bool; bestmove : option string }.

(** What [axios.post] does: it rejects, or resolves with a response whose
    [data] may not be an object (destructuring it then throws). *)
Inductive HttpOutcome :=
| NetworkError
| HttpResponse (data : option ApiData).

(** The settled promise of [getBestMoveOnline]. *)
Inductive OracleResult :=
| Resolved (bestMove : string)
| Rejected.

(** JavaScript truthiness of a string. *)
Definition truthy (s : string) : bool := negb (s =? "")%string.

Definition getBestMoveOnline (h : HttpOutcome) : OracleResult :=
  match h with
  | NetworkError => Rejected
  | HttpResponse None => Rejected
  | HttpResponse (Some d) =>
      match bestmove d with
      | Some bm => if success d && truthy bm then Resolved bm else Rejected
      | None => Rejected
      end
  end.

(** Indexing a JavaScript array: [undefined] out of range. *)
Definition lookupZ {A : Type} (l : list A) (i : Z) : option A :=
  if i <? 0 then None else nth_error l (Z.to_nat i).

Fixpoint removeNth {A : Type} (i : nat) (l : list A) : list A :=
  match i, l with
  | _, [] => []
  | O, _ :: t => t
  | S k, x :: t => x :: removeNth k t
  end.

Definition optList {A : Type} (o : option A) : list A :=
  match o with Some x => [x] | None => [] end.

Inductive Direction := Forward | Back.

Section Session.

Context {E : RulesEngine}.

(** ** The state cells of [App] *)

(** The twelve [useState] cells.  [gameRef] and [moveHistoryRef] are the
    identities of the objects held in [game] and [moveHistory]: the
    dependency list of the effect compares those two cells by reference. *)
Record AppState := {
  game : Chess;
  gameRef : nat;
  moveHistory : list string;
  moveHistoryRef : nat;
  currentPosition : option string;        (* None: undefined *)
  isAnalyzing : bool;
  playerColor : option Color;             (* None: null *)
  selectedSquare : option Square;
  possibleMoves : list Square;
  lastMove : option string;
  errorMessage : option string;
  currentMoveIndex : Z;
  gameEndMessage : option string;
  positions : list string
}.

(** An identity no stored object has yet. *)
Definition freshRef (s : AppState) : nat :=
  S (Nat.max (gameRef s) (moveHistoryRef s)).

(** [setGame] always receives a newly constructed instance. *)
Definition setGame (g : Chess) (s : AppState) : AppState :=
  {| game := g; gameRef := freshRef s;
     moveHistory := moveHistory s; moveHistoryRef := moveHistoryRef s;
     currentPosition := currentPosition s; isAnalyzing := isAnalyzing s;
     playerColor := playerColor s; selectedSquare := selectedSquare s;
     possibleMoves := possibleMoves s; lastMove := lastMove s;
     errorMessage := errorMessage s; currentMoveIndex := currentMoveIndex s;
     gameEndMessage := gameEndMessage s; positions := positions s |}.

(** [setMoveHistory] always receives a newly built array ([[]] or
    [[...prev, x]]). *)
Definition setMoveHistory (f : list string -> list string) (s : AppState) : AppState :=
  {| game := game s; gameRef := gameRef s;
     moveHistory := f (moveHistory s); moveHistoryRef := freshRef s;
     currentPosition := currentPosition s; isAnalyzing := isAnalyzing s;
     playerColor := playerColor s; selectedSquare := selectedSquare s;
     possibleMoves := possibleMoves s; lastMove := lastMove s;
     errorMessage := errorMessage s; currentMoveIndex := currentMoveIndex s;
     gameEndMessage := gameEndMessage s; positions := positions s |}.

Definition setCurrentPosition (p : option string) (s : AppState) : AppState :=
  {| game := game s; gameRef := gameRef s;
     moveHistory := moveHistory s; moveHistoryRef := moveHistoryRef s;
     currentPosition := p; isAnalyzing := isAnalyzing s;
     playerColor := playerColor s; selectedSquare := selectedSquare s;
     possibleMoves := possibleMoves s; lastMove := lastMove s;
     errorMessage := errorMessage s; currentMoveIndex := currentMoveIndex s;
     gameEndMessage := gameEndMessage s; positions := positions s |}.

Definition setIsAnalyzing (b : bool) (s : AppState) : AppState :=
  {| game := game s; gameRef := gameRef s;
     moveHistory := moveHistory s; moveHistoryRef := moveHistoryRef s;
     currentPosition := currentPosition s; isAnalyzing := b;
     playerColor := playerColor s; selectedSquare := selectedSquare s;
     possibleMoves := possibleMoves s; lastMove := lastMove s;
     errorMessage := errorMessage s; currentMoveIndex := currentMoveIndex s;
     gameEndMessage := gameEndMessage s; positions := positions s |}.

Definition setPlayerColor (c : option Color) (s : AppState) : AppState :=
  {| game := game s; gameRef := gameRef s;
     moveHistory := moveHistory s; moveHistoryRef := moveHistoryRef s;
     currentPosition := currentPosition s; isAnalyzing := isAnalyzing s;
     playerColor := c; selectedSquare := selectedSquare s;
     possibleMoves := possibleMoves s; lastMove := lastMove s;
     errorMessage := errorMessage s; currentMoveIndex := currentMoveIndex s;
     gameEndMessage := gameEndMessage s; positions := positions s |}.

Definition setSelectedSquare (q : option Square) (s : AppState) : AppState :=
  {| game := game s; gameRef := gameRef s;
     moveHistory := moveHistory s; moveHistoryRef := moveHistoryRef s;
     currentPosition := currentPosition s; isAnalyzing := isAnalyzing s;
     playerColor := playerColor s; selectedSquare := q;
     possibleMoves := possibleMoves s; lastMove := lastMove s;
     errorMessage := errorMessage s; currentMoveIndex := currentMoveIndex s;
     gameEndMessage := gameEndMessage s; positions := positions s |}.

Definition setPossibleMoves (l : list Square) (s : AppState) : AppState :=
  {| game := game s; gameRef := gameRef s;
     moveHistory := moveHistory s; moveHistoryRef := moveHistoryRef s;
     currentPosition := currentPosition s; isAnalyzing := isAnalyzing s;
     playerColor := playerColor s; selectedSquare := selectedSquare s;
     possibleMoves := l; lastMove := lastMove s;
     errorMessage := errorMessage s; currentMoveIndex := currentMoveIndex s;
     gameEndMessage := gameEndMessage s; positions := positions s |}.

Definition setLastMove (m : option string) (s : AppState) : AppState :=
  {| game := game s; gameRef := gameRef s;
     moveHistory := moveHistory s; moveHistoryRef := moveHistoryRef s;
     currentPosition := currentPosition s; isAnalyzing := isAnalyzing s;
     playerColor := playerColor s; selectedSquare := selectedSquare s;
     possibleMoves := possibleMoves s; lastMove := m;
     errorMessage := errorMessage s; currentMoveIndex := currentMoveIndex s;
     gameEndMessage := gameEndMessage s; positions := positions s |}.

Definition setErrorMessage (m : option string) (s : AppState) : AppState :=
  {| game := game s; gameRef := gameRef s;
     moveHistory := moveHistory s; moveHistoryRef := moveHistoryRef s;
     currentPosition := currentPosition s; isAnalyzing := isAnalyzing s;
     playerColor := playerColor s; selectedSquare := selectedSquare s;
     possibleMoves := possibleMoves s; lastMove := lastMove s;
     errorMessage := m; currentMoveIndex := currentMoveIndex s;
     gameEndMessage := gameEndMessage s; positions := positions s |}.

Definition setCurrentMoveIndex (f : Z -> Z) (s : AppState) : AppState :=
  {| game := game s; gameRef := gameRef s;
     moveHistory := moveHistory s; moveHistoryRef := moveHistoryRef s;
     currentPosition := currentPosition s; isAnalyzing := isAnalyzing s;
     playerColor := playerColor s; selectedSquare := selectedSquare s;
     possibleMoves := possibleMoves s; lastMove := lastMove s;
     errorMessage := errorMessage s; currentMoveIndex := f (currentMoveIndex s);
     gameEndMessage := gameEndMessage s; positions := positions s |}.

Definition setGameEndMessage (m : option string) (s : AppState) : AppState :=
  {| game := game s; gameRef := gameRef s;
     moveHistory := moveHistory s; moveHistoryRef := moveHistoryRef s;
     currentPosition := currentPosition s; isAnalyzing := isAnalyzing s;
     playerColor := playerColor s; selectedSquare := selectedSquare s;
     possibleMoves := possibleMoves s; lastMove := lastMove s;
     errorMessage := errorMessage s; currentMoveIndex := currentMoveIndex s;
     gameEndMessage := m; positions := positions s |}.

Definition setPositions (f : list string -> list string) (s : AppState) : AppState :=
  {| game := game s; gameRef := gameRef s;
     moveHistory := moveHistory s; moveHistoryRef := moveHistoryRef s;
     currentPosition := currentPosition s; isAnalyzing := isAnalyzing s;
     playerColor := playerColor s; selectedSquare := selectedSquare s;
     possibleMoves := possibleMoves s; lastMove := lastMove s;
     errorMessage := errorMessage s; currentMoveIndex := currentMoveIndex s;
     gameEndMessage := gameEndMessage s; positions := f (positions s) |}.

(** The values of the cells at the first render (lines 10-21). *)
Definition initialState : AppState :=
  {| game := newChess; gameRef := 0%nat;
     moveHistory := []; moveHistoryRef := 0%nat;
     currentPosition := Some (fen newChess); isAnalyzing := false;
     playerColor := None; selectedSquare := None;
     possibleMoves := []; lastMove := None;
     errorMessage := None; currentMoveIndex := -1;
     gameEndMessage := None; positions := [] |}.

(** autoColor: the side played by the API; manualColor: the other side. *)
Definition autoColor (s : AppState) : option Color := playerColor s.

Definition manualColor (s : AppState) : option Color :=
  match playerColor s with
  | Some W => Some B
  | Some B => Some W
  | None => None
  end.


(** ** The manual (opponent) move functions *)

(** [isValidManualMove] (lines 97-115): the eligibility gate.  It returns
    the state with the error message it set, and its boolean result. *)
Definition isValidManualMove (s : AppState) : AppState * bool :=
  match playerColor s with
  | None => (s |> setErrorMessage (Some "Please select a color first"), false)
  | Some _ =>
      if isAnalyzing s then
        (s |> setErrorMessage (Some "Please wait, calculating move..."), false)
      else if isGameOver (game s) then
        (s |> setErrorMessage (Some "Game is over"), false)
      else
        match manualColor s with
        | Some m =>
            if negb (Color_eqb (turn (game s)) m) then
              (s |> setErrorMessage (Some "It is not the opponent’s turn to move"), false)
            else (s, true)
        | None => (s, true)
        end
  end.

(** [validateManualMove] (lines 117-144).  The functions of the engine are
    total here, so the [catch] branch has no counterpart. *)
Definition validateManualMove (from to : Square) (s : AppState) : AppState * bool :=
  if negb (truthy from) || negb (truthy to) then
    (s |> setErrorMessage (Some "Invalid move: Missing source or destination"), false)
  else
    match manualColor s with
    | None => (s, false)
    | Some m =>
        match get (game s) from with
        | None => (s |> setErrorMessage (Some "No piece at selected position"), false)
        | Some piece =>
            if negb (Color_eqb (color piece) m) then
              (s |> setErrorMessage
                      (Some "You can only move the opponent’s pieces manually"), false)
            else
              let legalMoves := moves (game s) from in
              if negb (existsb (fun move => (mto move =? to)%string) legalMoves) then
                (s |> setErrorMessage (Some "Illegal move for this piece"), false)
              else (s, true)
        end
    end.

(** [makeManualMove] (lines 146-172).  The move is made on a fresh copy
    [new Chess(game.fen())] of the live game, with promotion to a queen. *)
Definition makeManualMove (from to : Square) (s : AppState) : AppState * bool :=
  let '(s1, eligible) := isValidManualMove s in
  if negb eligible then (s1, false)
  else
    let '(s2, valid) := validateManualMove from to s1 in
    if negb valid then (s2, false)
    else
      match moveObject (loadFen (fen (game s))) from to Queen with
      | MoveNull => (s2 |> setErrorMessage (Some "Invalid manual move"), false)
      | MoveThrows =>
          (s2 |> setErrorMessage (Some "Error making manual move")
              |> setSelectedSquare None
              |> setPossibleMoves [], false)
      | Moved newGame move =>
          (s2 |> setGame newGame
              |> setCurrentPosition (Some (fen newGame))
              |> setMoveHistory (fun prev => prev ++ [san move])
              |> setPositions (fun prev => prev ++ [fen newGame])
              |> setCurrentMoveIndex (fun prev => prev + 1)
              |> setSelectedSquare None
              |> setPossibleMoves []
              |> setErrorMessage None, true)
      end.

(** [onDrop] (lines 210-212): drag and drop goes straight to
    [makeManualMove]. *)
Definition onDrop (sourceSquare targetSquare : Square) (s : AppState) : AppState * bool :=
  makeManualMove sourceSquare targetSquare s.

(** [getMoveOptions] (lines 214-223). *)
Definition getMoveOptions (square : Square) (s : AppState) : AppState * list Square :=
  let '(s1, eligible) := isValidManualMove s in
  if negb eligible then (s1, [])
  else (s1, map mto (moves (game s) square)).

(** The piece test of [onSquareClick]: [piece && piece.color === manualColor]. *)
Definition ownPieceAt (square : Square) (s : AppState) : bool :=
  match get (game s) square, manualColor s with
  | Some piece, Some m => Color_eqb (color piece) m
  | _, _ => false
  end.

(** Select [square] and show its destinations (lines 186-188, 197-199). *)
Definition selectSquare (square : Square) (s : AppState) : AppState :=
  let '(s1, options) := getMoveOptions square (s |> setSelectedSquare (Some square)) in
  s1 |> setPossibleMoves options |> setErrorMessage None.

(** [onSquareClick] (lines 174-208). *)
Definition onSquareClick (square : Square) (s : AppState) : AppState :=
  let '(s1, eligible) := isValidManualMove s in
  if negb eligible then
    s1 |> setSelectedSquare None |> setPossibleMoves []
  else
    match selectedSquare s with
    | Some selected =>
        let '(s2, moveSuccessful) := makeManualMove selected square s1 in
        if moveSuccessful then s2
        else if ownPieceAt square s then selectSquare square s2
        else s2 |> setSelectedSquare None |> setPossibleMoves []
    | None =>
        if ownPieceAt square s then selectSquare square s1 else s1
    end.

(** ** Session commands *)

(** [startNewGame] (lines 225-242). *)
Definition startNewGame (color : Color) (s : AppState) : AppState :=
  let newGame := newChess in
  s |> setGame newGame
    |> setCurrentPosition (Some (fen newGame))
    |> setMoveHistory (fun _ => [])
    |> setPositions (fun _ => [fen newGame])
    |> setPlayerColor (Some color)
    |> setSelectedSquare None
    |> setPossibleMoves []
    |> setIsAnalyzing false
    |> setLastMove None
    |> setCurrentMoveIndex (fun _ => -1)
    |> setGameEndMessage None.

(** [changeColor] (lines 244-246). *)
Definition changeColor (s : AppState) : AppState :=
  s |> setPlayerColor None.

(** [navigateMove] (lines 254-263). *)
Definition navigateMove (direction : Direction) (s : AppState) : AppState :=
  let newIndex :=
    match direction with
    | Forward => Z.min (currentMoveIndex s + 1) (Z.of_nat (List.length (positions s)) - 1)
    | Back => Z.max (currentMoveIndex s - 1) 0
    end in
  if negb (newIndex =? currentMoveIndex s) then
    s |> setCurrentMoveIndex (fun _ => newIndex)
      |> setCurrentPosition (lookupZ (positions s) newIndex)
  else s.

(** ** The oracle path: [calculateAndPlayBestMove] (lines 63-93) *)

(** The part of [calculateAndPlayBestMove] before its [await]: unless the
    game is over it raises [isAnalyzing] and issues the request for
    [game.fen()].  The request keeps the [game] of the render it was
    issued from: that is all the continuation reads from its closure. *)
Definition calculateAndPlayBestMove (s : AppState) : AppState * option Chess :=
  if isGameOver (game s) then (s, None)
  else (s |> setIsAnalyzing true, Some (game s)).

(** The four ways through the [try] block once the promise has settled. *)
Inductive OracleBranch :=
| NoSuggestion                         (* if (!bestMove) *)
| InvalidAIMove                        (* if (!moveResult) *)
| Played (newGame : Chess) (moveResult : Move)
| Caught.                              (* catch (error) *)

(** Which way is taken: [game] is the instance captured by the request. *)
Definition oracleBranch (game : Chess) (r : OracleResult) : OracleBranch :=
  match r with
  | Rejected => Caught
  | Resolved bestMove =>
      if negb (truthy bestMove) then NoSuggestion
      else
        match moveText (loadFen (fen game)) bestMove with
        | Moved newGame moveResult => Played newGame moveResult
        | MoveNull => InvalidAIMove
        | MoveThrows => Caught
        end
  end.

(** The [finally] block. *)
Definition finallyBlock (s : AppState) : AppState :=
  s |> setIsAnalyzing false |> setSelectedSquare None |> setPossibleMoves [].

(** The continuation of [calculateAndPlayBestMove] after the [await],
    run on the state [s] that is current when the promise settles. *)
Definition resumeBestMove (game : Chess) (r : OracleResult) (s : AppState) : AppState :=
  match oracleBranch game r with
  | NoSuggestion =>
      s |> setErrorMessage (Some "Failed to get AI move suggestion") |> finallyBlock
  | InvalidAIMove =>
      s |> setErrorMessage (Some "Invalid AI move") |> finallyBlock
  | Played newGame moveResult =>
      s |> setGame newGame
        |> setCurrentPosition (Some (fen newGame))
        |> setMoveHistory (fun prev => prev ++ [san moveResult])
        |> setPositions (fun prev => prev ++ [fen newGame])
        |> setCurrentMoveIndex (fun prev => prev + 1)
        |> setLastMove (Some (san moveResult))
        |> finallyBlock
  | Caught =>
      s |> setErrorMessage (Some "Error calculating move") |> finallyBlock
  end.

(** ** The auto-move effect (lines 29-60) *)

Definition autoTurn (s : AppState) : bool :=
  match autoColor s with
  | Some c => Color_eqb (turn (game s)) c
  | None => false
  end.

Definition endMessage (g : Chess) : string :=
  if isCheckmate g then
    match turn g with
    | W => "Checkmate! Black wins! 🏆"
    | B => "Checkmate! White wins! 🏆"
    end
  else if isDraw g then "It's a draw! 🤝"
  else if isStalemate g then "Stalemate! Game is drawn! 🤝"
  else if isThreefoldRepetition g then "Draw by repetition! 🔄"
  else if isInsufficientMaterial g then "Draw by insufficient material! ⚖️"
  else "".

(** The condition of [makeAutoMove]: [autoColor && game.turn() === autoColor
    && !game.isGameOver() && !isAnalyzing]. *)
Definition autoMoveGuard (s : AppState) : bool :=
  autoTurn s && negb (isGameOver (game s)) && negb (isAnalyzing s).

(** One run of the effect on the rendered state [s]: the state after its
    updates, and the request it issued, if any. *)
Definition autoMoveEffect (s : AppState) : AppState * option Chess :=
  let '(s1, request) :=
    if autoMoveGuard s then calculateAndPlayBestMove s else (s, None) in
  (s1 |> setGameEndMessage
           (if isGameOver (game s) then Some (endMessage (game s)) else None),
   request).

(** The dependency list [[game, moveHistory, autoColor, isAnalyzing]]
    between two renders: objects by identity, primitives by value. *)
Definition optColor_eqb (a b : option Color) : bool :=
  match a, b with
  | Some x, Some y => Color_eqb x y
  | None, None => true
  | _, _ => false
  end.

Definition depsChanged (prev next : AppState) : bool :=
  negb (Nat.eqb (gameRef prev) (gameRef next))
  || negb (Nat.eqb (moveHistoryRef prev) (moveHistoryRef next))
  || negb (optColor_eqb (autoColor prev) (autoColor next))
  || negb (Bool.eqb (isAnalyzing prev) (isAnalyzing next)).

(** ** The component as a transition system *)

(** The rendered state and the oracle requests in flight, each with the
    [game] its continuation captured, oldest first. *)
Record Session := { app : AppState; inflight : list Chess }.

(** Render [s], run the effect, and render again while the effect's own
    updates change a dependency. *)
Fixpoint runEffects (fuel : nat) (s : AppState) (q : list Chess) : Session :=
  match fuel with
  | O => {| app := s; inflight := q |}
  | S k =>
      let '(s1, request) := autoMoveEffect s in
      if depsChanged s s1 then runEffects k s1 (q ++ optList request)
      else {| app := s1; inflight := q ++ optList request |}
  end.

(** After a handler took the rendered state [prev] to [next] (its updates
    are applied together): the effect runs when a dependency changed.  Two
    rounds settle it ([runEffects_settles] below). *)
Definition commit (prev next : AppState) (q : list Chess) : Session :=
  if depsChanged prev next then runEffects 2 next q
  else {| app := next; inflight := q |}.

(** The first render: every effect runs once on mount. *)
Definition mount : Session := runEffects 2 initialState [].

Inductive Event :=
| StartNewGame (color : Color)
| ChangeColor
| Navigate (direction : Direction)
| Drop (sourceSquare targetSquare : Square)
| SquareClick (square : Square)
| OracleSettles (i : nat) (h : HttpOutcome).   (* the i-th request in flight settles *)

Definition step (x : Session) (e : Event) : Session :=
  let s := app x in
  match e with
  | StartNewGame color => commit s (startNewGame color s) (inflight x)
  | ChangeColor => commit s (changeColor s) (inflight x)
  | Navigate direction => commit s (navigateMove direction s) (inflight x)
  | Drop sourceSquare targetSquare =>
      commit s (fst (onDrop sourceSquare targetSquare s)) (inflight x)
  | SquareClick square => commit s (onSquareClick square s) (inflight x)
  | OracleSettles i h =>
      match nth_error (inflight x) i with
      | Some g =>
          commit s (resumeBestMove g (getBestMoveOnline h) s) (removeNth i (inflight x))
      | None => x
      end
  end.

Definition run (events : list Event) : Session := fold_left step events mount.

(** ** Vocabulary for the properties *)

(** [frame s s']: [s'] differs from [s] at most in the error message and
    the selection. *)
Definition frame (s s' : AppState) : Prop :=
  game s' = game s /\ gameRef s' = gameRef s /\
  moveHistory s' = moveHistory s /\ moveHistoryRef s' = moveHistoryRef s /\
  positions s' = positions s /\ currentMoveIndex s' = currentMoveIndex s /\
  currentPosition s' = currentPosition s /\ playerColor s' = playerColor s /\
  isAnalyzing s' = isAnalyzing s /\ lastMove s' = lastMove s /\
  gameEndMessage s' = gameEndMessage s.

(** The state a successful manual move leaves. *)
Definition manualMoveApplied (newGame : Chess) (move : Move) (s : AppState) : AppState :=
  s |> setGame newGame
    |> setCurrentPosition (Some (fen newGame))
    |> setMoveHistory (fun prev => prev ++ [san move])
    |> setPositions (fun prev => prev ++ [fen newGame])
    |> setCurrentMoveIndex (fun prev => prev + 1)
    |> setSelectedSquare None
    |> setPossibleMoves []
    |> setErrorMessage None.

(** The state an applied oracle move leaves. *)
Definition oracleMoveApplied (newGame : Chess) (moveResult : Move) (s : AppState)
  : AppState :=
  s |> setGame newGame
    |> setCurrentPosition (Some (fen newGame))
    |> setMoveHistory (fun prev => prev ++ [san moveResult])
    |> setPositions (fun prev => prev ++ [fen newGame])
    |> setCurrentMoveIndex (fun prev => prev + 1)
    |> setLastMove (Some (san moveResult))
    |> finallyBlock.

(** The message of a branch that applies no move. *)
Definition branchError (b : OracleBranch) : string :=
  match b with
  | NoSuggestion => "Failed to get AI move suggestion"
  | InvalidAIMove => "Invalid AI move"
  | Played _ _ => ""
  | Caught => "Error calculating move"
  end.

(** The error kinds the specification gives a manual attempt, in its
    order, and the message by which the component reports each. *)
Inductive ManualError :=
| NoActiveGame
| AnalysisInProgress
| GameOver
| WrongTurn
| NoPieceAtSource
| WrongPieceColor
| IllegalMove.

Definition errorText (e : ManualError) : string :=
  match e with
  | NoActiveGame => "Please select a color first"
  | AnalysisInProgress => "Please wait, calculating move..."
  | GameOver => "Game is over"
  | WrongTurn => "It is not the opponent’s turn to move"
  | NoPieceAtSource => "No piece at selected position"
  | WrongPieceColor => "You can only move the opponent’s pieces manually"
  | IllegalMove => "Illegal move for this piece"
  end.

Definition opposite (c : Color) : Color :=
  match c with W => B | B => W end.

(** The specification's two-phase gate, read off its text: the first error
    that applies, every check on the live game.  [awaiting] says whether
    the turn coordinator is awaiting the oracle. *)
Definition firstApplicableError (awaiting : bool) (from to : Square) (s : AppState)
  : option ManualError :=
  match playerColor s with
  | None => Some NoActiveGame
  | Some oracleSide =>
      if awaiting then Some AnalysisInProgress
      else if isGameOver (game s) then Some GameOver
      else if negb (Color_eqb (turn (game s)) (opposite oracleSide)) then Some WrongTurn
      else
        match get (game s) from with
        | None => Some NoPieceAtSource
        | Some piece =>
            if Color_eqb (color piece) oracleSide then Some WrongPieceColor
            else if existsb (fun m => (mto m =? to)%string) (moves (game s) from)
                 then None
                 else Some IllegalMove
        end
  end.

(** The coordinator awaits the oracle while a request is outstanding. *)
Definition requestOutstanding (x : Session) : bool :=
  match inflight x with [] => false | _ :: _ => true end.

(** The errors of the second phase, move legality. *)
Definition legalityError (e : ManualError) : bool :=
  match e with
  | NoPieceAtSource | WrongPieceColor | IllegalMove => true
  | _ => false
  end.

(** A manual attempt fails with the first applicable error and leaves
    history and move log alone, or there is no such error and it succeeds. *)
Definition failsWithFirstError (awaiting : bool) (from to : Square) (s : AppState)
  : Prop :=
  let r := makeManualMove from to s in
  match firstApplicableError awaiting from to s with
  | Some e =>
      snd r = false /\ errorMessage (fst r) = Some (errorText e) /\
      positions (fst r) = positions s /\ moveHistory (fst r) = moveHistory s
  | None => snd r = true
  end.

(** The same for a click on [to] while [from] is selected, as the
    specification has it: the click is a manual attempt like the drop. *)
Definition clickFailsWithFirstError (awaiting : bool) (from to : Square)
  (s : AppState) : Prop :=
  let s' := onSquareClick to s in
  match firstApplicableError awaiting from to s with
  | Some e =>
      errorMessage s' = Some (errorText e) /\
      positions s' = positions s /\ moveHistory s' = moveHistory s
  | None => s' = fst (makeManualMove from to s)
  end.

(** What the click does in the code: a failed attempt on a square that
    holds a piece of the manual side selects that square and clears the
    message, when the error is one of move legality; every other failure
    reports the first applicable error and clears the selection. *)
Definition clickOutcome (awaiting : bool) (from to : Square) (s : AppState) : Prop :=
  let s' := onSquareClick to s in
  match firstApplicableError awaiting from to s with
  | Some e =>
      positions s' = positions s /\ moveHistory s' = moveHistory s /\
      if legalityError e && ownPieceAt to s
      then errorMessage s' = None /\ selectedSquare s' = Some to
      else errorMessage s' = Some (errorText e) /\ selectedSquare s' = None
  | None => s' = fst (makeManualMove from to s)
  end.

(** The contract of chess.js between its two views of the legal moves: a
    destination listed by [moves({ square })] is a move that
    [move({ from, to, promotion })] makes. *)
Definition movesConsistent (g : Chess) (from to : Square) : Prop :=
  forall m, In m (moves g from) -> mto m = to ->
  exists g' mv, moveObject (loadFen (fen g)) from to Queen = Moved g' mv.

(** Whether a new game was started in a run. *)
Definition isStart (e : Event) : bool :=
  match e with StartNewGame _ => true | _ => false end.

Definition started (events : list Event) : bool := existsb isStart events.

(** Before the first new game: no history, no side, nothing in flight. *)
Definition notStarted (x : Session) : Prop :=
  positions (app x) = [] /\ moveHistory (app x) = [] /\
  playerColor (app x) = None /\ inflight x = [].

(** After it: history and move log run in parallel, the cursor is at most
    the last index, and the live game is the last position of history. *)
Definition inProgress (s : AppState) : Prop :=
  List.length (positions s) = S (List.length (moveHistory s)) /\
  -1 <= currentMoveIndex s <= Z.of_nat (List.length (positions s)) - 1 /\
  last (positions s) "" = fen (game s).

(** A run in which no new game is started while a request is in flight. *)
Fixpoint restartsOnlyWhenIdle (x : Session) (events : list Event) : bool :=
  match events with
  | [] => true
  | e :: rest =>
      (if isStart e then
         match inflight x with [] => true | _ :: _ => false end
       else true)
      && restartsOnlyWhenIdle (step x e) rest
  end.

(** [isAnalyzing] is set exactly while one request is in flight. *)
Definition singleFlight (x : Session) : Prop :=
  List.length (inflight x) = if isAnalyzing (app x) then 1%nat else 0%nat.

(** Every request in flight was issued for the game that is still live. *)
Definition inflightLive (x : Session) : Prop :=
  forall g, In g (inflight x) -> g = game (app x).

(** [s'] is [s] with the move to [newGame] applied: live game, history,
    move log and displayed position. *)
Definition moveApplied (newGame : Chess) (move : Move) (s s' : AppState) : Prop :=
  game s' = newGame /\
  positions s' = positions s ++ [fen newGame] /\
  moveHistory s' = moveHistory s ++ [san move] /\
  currentPosition s' = Some (fen newGame).

(** The specification's wording of a move application from [s] to [s']:
    the new position is the engine's move on the last position of history,
    and the cursor ends on the new last index. *)
Definition computedFromLast (s s' : AppState) : Prop :=
  exists newGame move,
    ((exists text, moveText (loadFen (last (positions s) "")) text = Moved newGame move) \/
     (exists from to,
         moveObject (loadFen (last (positions s) "")) from to Queen = Moved newGame move)) /\
    positions s' = positions s ++ [fen newGame] /\
    moveHistory s' = moveHistory s ++ [san move].

Definition cursorAtLast (s' : AppState) : Prop :=
  currentMoveIndex s' = Z.of_nat (List.length (positions s')) - 1.

(** The specification's own wording of five more requirements, to be
    compared with what the component does: the response of a request whose
    position is no longer the last of history is discarded; history and
    cursor are well formed; at most one request is outstanding; a failed
    oracle turn leaves the coordinator idle; change-side resets like
    start-new-game. *)
Definition staleResponseDiscarded (x : Session) (i : nat) (h : HttpOutcome) : Prop :=
  forall g, nth_error (inflight x) i = Some g ->
            last (positions (app x)) "" <> fen g ->
            positions (app (step x (OracleSettles i h))) = positions (app x) /\
            moveHistory (app (step x (OracleSettles i h))) = moveHistory (app x).

Definition historyWellFormed (s : AppState) : Prop :=
  Z.of_nat (List.length (moveHistory s)) = Z.of_nat (List.length (positions s)) - 1 /\
  0 <= currentMoveIndex s <= Z.of_nat (List.length (positions s)) - 1.

Definition atMostOneRequest (x : Session) : Prop :=
  (List.length (inflight x) <= 1)%nat.

Definition backToIdle (x : Session) : Prop :=
  isAnalyzing (app x) = false /\ inflight x = [].

Definition sessionReplaced (x : Session) : Prop :=
  positions (app x) = [fen newChess] /\ moveHistory (app x) = [].

End Session.

Arguments AppState {E}.
Arguments Session {E}.

(** ** A small rules engine to run the session on

    A stand-in for chess.js that knows the king's knights only: the white
    knight shuttles between g1 and f3, the black knight between g8 and f6,
    as they may in a game of chess from the initial position.  A position
    is the text of the moves played so far ("Nf3 Nf6 "), which is also its
    own FEN; the game is drawn by repetition after eight plies.  An illegal
    move throws, as in chess.js 1.x. *)
Module Stub.

Fixpoint plies (g : string) : nat :=
  match g with
  | EmptyString => O
  | String c rest => if Ascii.eqb c " "%char then S (plies rest) else plies rest
  end.

Definition stubTurn (g : string) : Color := if Nat.even (plies g) then W else B.

Definition stubOver (g : string) : bool := Nat.leb 8 (plies g).

(** Where each knight stands: it has moved away after an odd number of its
    own moves. *)
Definition whiteKnight (g : string) : Square :=
  if Nat.odd (Nat.div2 (S (plies g))) then "f3" else "g1".

Definition blackKnight (g : string) : Square :=
  if Nat.odd (Nat.div2 (plies g)) then "f6" else "g8".

Definition stubGet (g : string) (square : Square) : option Piece :=
  if (square =? whiteKnight g)%string then Some {| ptype := Knight; color := W |}
  else if (square =? blackKnight g)%string then Some {| ptype := Knight; color := B |}
  else None.

Definition shuttle (square : Square) : Square :=
  if (square =? "g1")%string then "f3"
  else if (square =? "f3")%string then "g1"
  else if (square =? "g8")%string then "f6"
  else "g8".

Definition knightOf (g : string) : Square :=
  match stubTurn g with W => whiteKnight g | B => blackKnight g end.

(** The one legal move of the side to move. *)
Definition legalMove (g : string) : Move :=
  {| mfrom := knightOf g; mto := shuttle (knightOf g);
     san := ("N" ++ shuttle (knightOf g))%string |}.

Definition stubMoves (g : string) (square : Square) : list Move :=
  if stubOver g then []
  else if (square =? knightOf g)%string then [legalMove g] else [].

Definition played (g : string) (m : Move) : string := (g ++ san m ++ " ")%string.

Definition stubMoveObject (g : string) (from to : Square) (promotion : PieceSymbol)
  : MoveOutcome string :=
  match find (fun m => (mto m =? to)%string) (stubMoves g from) with
  | Some m => Moved (played g m) m
  | None => MoveThrows
  end.

(** A move given as text: its notation ("Nf3"), or its two squares
    ("g1f3"), which the parser of chess.js reads as well. *)
Definition stubMoveText (g : string) (text : string) : MoveOutcome string :=
  match find (fun m => (san m =? text)%string || (mfrom m ++ mto m =? text)%string)
             (stubMoves g (knightOf g)) with
  | Some m => Moved (played g m) m
  | None => MoveThrows
  end.

#[export] Instance engine : RulesEngine := {|
  Chess := string;
  newChess := "";
  loadFen := fun f => f;
  fen := fun g => g;
  turn := stubTurn;
  isGameOver := stubOver;
  isCheckmate := fun _ => false;
  isDraw := stubOver;
  isStalemate := fun _ => false;
  isThreefoldRepetition := stubOver;
  isInsufficientMaterial := fun _ => false;
  get := stubGet;
  moves := stubMoves;
  moveText := stubMoveText;
  moveObject := stubMoveObject
|}.

(** The HTTP response that carries [text] as best move. *)
Definition ok (text : string) : HttpOutcome :=
  HttpResponse (Some {| success := true; bestmove := Some text |}).

(** The oracle plays White and a request for the first move is in flight. *)
Definition awaitingOpening : Session := run [StartNewGame W].

(** The oracle opened with Nf3; Black, the manual side, is to move. *)
Definition afterOpening : Session :=
  run [StartNewGame W; OracleSettles 0 (ok "Nf3")].

(** The oracle plays Black; after the manual Nf3 a request for Black's
    reply is in flight, and the user has started a new game meanwhile. *)
Definition restartedWhileAwaiting : Session :=
  run [StartNewGame B; Drop "g1" "f3"; StartNewGame B].

(** Two plies played (manual Nf3, oracle Nf6), then one step back in the
    history: White, the manual side, is to move. *)
Definition navigatedBack : Session :=
  run [StartNewGame B; Drop "g1" "f3"; OracleSettles 0 (ok "Nf6"); Navigate Back].

(** A run through the buttons: a game, the oracle's first move, a look
    forward, a click on the knight that is to move, and a change of side. *)
Definition buttonsRun : list Event :=
  [StartNewGame W; OracleSettles 0 (ok "Nf3"); Navigate Forward;
   SquareClick "g8"; ChangeColor].

(** The oracle plays White and the knights go out and back twice: after
    eight plies the initial position stands for the third time and the
    game is drawn. *)
Definition drawnGame : Session :=
  run [StartNewGame W; OracleSettles 0 (ok "Nf3"); Drop "g8" "f6";
       OracleSettles 0 (ok "Ng1"); Drop "f6" "g8";
       OracleSettles 0 (ok "Nf3"); Drop "g8" "f6";
       OracleSettles 0 (ok "Ng1"); Drop "f6" "g8"].

End Stub.

(** ** What is rendered

    The parts of the component and of its two panels that turn the state
    into what the user sees and may do. *)
Section Rendered.

Context {E : RulesEngine}.

(** [game.isCheck()], a method of chess.js that only [getGameStatus]
    calls. *)
Variable isCheck : Chess -> bool.

(** [getGameStatus] (App.tsx, lines 248-252); an empty [gameEndMessage]
    is falsy. *)
Definition getGameStatus (s : AppState) : string :=
  let live :=
    if isCheck (game s) then "Check!"
    else match turn (game s) with
         | W => "White to move"
         | B => "Black to move"
         end in
  match gameEndMessage s with
  | Some message => if truthy message then message else live
  | None => live
  end.

(** The banners of [ChessBoardPanel] (lines 98-108): [errorMessage && ...]
    and [gameEndMessage && ...]. *)
Definition banner (message : option string) : option string :=
  match message with
  | Some m => if truthy m then Some m else None
  | None => None
  end.

Definition errorBanner (s : AppState) : option string := banner (errorMessage s).

Definition gameEndBanner (s : AppState) : option string := banner (gameEndMessage s).

(** [customSquareStyles] of [ChessBoardPanel] (lines 65-81): the entry of
    the selected square, then one entry per possible move; a later entry
    of the same key replaces an earlier one. *)
Inductive SquareStyle := SelectedStyle | DestinationStyle.

Definition customSquareStyles (s : AppState) (square : Square) : option SquareStyle :=
  if existsb (String.eqb square) (possibleMoves s) then Some DestinationStyle
  else
    match selectedSquare s with
    | Some selected =>
        if truthy selected && (square =? selected)%string then Some SelectedStyle
        else None
    | None => None
    end.

(** The navigation buttons of the side panel (src/unnamed/part_000, lines
    104-122): [disabled={currentMoveIndex <= 0}] and
    [disabled={currentMoveIndex >= positions.length - 1}]. *)
Definition backDisabled (s : AppState) : bool := currentMoveIndex s <=? 0.

Definition forwardDisabled (s : AppState) : bool :=
  Z.of_nat (List.length (positions s)) - 1 <=? currentMoveIndex s.

(** A cell of the move table: [moveHistory[i] || '']. *)
Definition tableCell (moveHistory : list string) (i : nat) : string :=
  match nth_error moveHistory i with
  | Some m => if truthy m then m else ""
  | None => ""
  end.

(** The rows of the move table (src/unnamed/part_000, lines 52-58):
    [Math.ceil(moveHistory.length / 2)] rows, row [i] with its number
    [i + 1] and the cells [i * 2] and [i * 2 + 1]. *)
Definition moveTable (moveHistory : list string) : list (nat * string * string) :=
  map (fun i => (i + 1, tableCell moveHistory (i * 2), tableCell moveHistory (i * 2 + 1))%nat)
      (seq 0 (Nat.div2 (S (List.length moveHistory)))).

(** What the render of [App] (lines 267-325) and the buttons of the side
    panel let the user do in state [s]: with no colour chosen only the two
    colour buttons; otherwise the board, New Game (for the same colour),
    Change Color and the navigation buttons that are not disabled.  A
    request in flight may settle at any time. *)
Definition exposed (s : AppState) (e : Event) : bool :=
  match e with
  | OracleSettles _ _ => true
  | StartNewGame color =>
      match playerColor s with
      | None => true
      | Some c => Color_eqb color c
      end
  | ChangeColor | Drop _ _ | SquareClick _ =>
      match playerColor s with None => false | Some _ => true end
  | Navigate Back =>
      match playerColor s with None => false | Some _ => negb (backDisabled s) end
  | Navigate Forward =>
      match playerColor s with None => false | Some _ => negb (forwardDisabled s) end
  end.

(** The runs a user can produce from [x]. *)
Fixpoint uiRun (x : Session) (events : list Event) : bool :=
  match events with
  | [] => true
  | e :: rest => exposed (app x) e && uiRun (step x e) rest
  end.

(** What chess.js guarantees about the end of a game: the game is over
    exactly at checkmate, stalemate or a draw, and stalemate, repetition
    and insufficient material are draws. *)
Definition endOfGameContract (g : Chess) : Prop :=
  isGameOver g = isCheckmate g || isStalemate g || isDraw g /\
  (isStalemate g = true -> isDraw g = true) /\
  (isThreefoldRepetition g = true -> isDraw g = true) /\
  (isInsufficientMaterial g = true -> isDraw g = true).

(** The highlighted squares agree with the live game: nothing is selected
    and nothing highlighted, or the possible moves are the destinations of
    the selected square. *)
Definition selectionAgrees (s : AppState) : Prop :=
  match selectedSquare s with
  | None => possibleMoves s = []
  | Some selected => possibleMoves s = map mto (moves (game s) selected)
  end.

(** The board shows the position under the cursor, or the last one. *)
Definition displayAgrees (s : AppState) : Prop :=
  (0 <= currentMoveIndex s /\
   currentPosition s = lookupZ (positions s) (currentMoveIndex s)) \/
  currentPosition s = Some (last (positions s) "").

(** The end-of-game message is that of the live game. *)
Definition messageCurrent (s : AppState) : Prop :=
  gameEndMessage s =
    if isGameOver (game s) then Some (endMessage (game s)) else None.

(** The message of the first check of [isValidManualMove] is not shown. *)
Definition noColourMessageHidden (s : AppState) : Prop :=
  errorMessage s <> Some "Please select a color first".

End Rendered.

(** ** The request of the oracle (src/stockfishAPI.ts, lines 12-15) *)

(** The characters [encodeURIComponent] leaves as they are: letters,
    digits and [- _ . ! ~ * ' ( )]. *)
Definition unreserved (c : ascii) : bool :=
  let n := nat_of_ascii c in
  (Nat.leb 65 n && Nat.leb n 90) || (Nat.leb 97 n && Nat.leb n 122)
  || (Nat.leb 48 n && Nat.leb n 57)
  || existsb (Ascii.eqb c) (list_ascii_of_string "-_.!~*'()").

Definition hexDigit (n : nat) : ascii :=
  nth n (list_ascii_of_string "0123456789ABCDEF") "0"%char.

(** [%XX], the byte in upper-case hexadecimal. *)
Definition percentEncode (c : ascii) : string :=
  String "%" (String (hexDigit (nat_of_ascii c / 16))
                     (String (hexDigit (nat_of_ascii c mod 16)) "")).

(** [encodeURIComponent] on a string given by its UTF-8 bytes: every byte
    that is not an unreserved character is percent-encoded. *)
Fixpoint encodeURIComponent (s : string) : string :=
  match s with
  | EmptyString => ""
  | String c rest =>
      ((if unreserved c then String c "" else percentEncode c)
       ++ encodeURIComponent rest)%string
  end.

(** The URL of [getBestMoveOnline], for a depth that is a natural number
    (the component passes 15). *)
Definition requestUrl (fen : string) (difficulty : nat) : string :=
  ("https://stockfish.online/api/s/v2.php?fen=" ++ encodeURIComponent fen
   ++ "&depth=" ++ NilZero.string_of_uint (Nat.to_uint difficulty))%string.

(** The inverse of the encoding, to show that it loses nothing. *)
Definition hexValue (c : ascii) : nat :=
  let n := nat_of_ascii c in
  if Nat.leb 65 n then (n - 55)%nat else (n - 48)%nat.

Fixpoint percentDecode (fuel : nat) (s : string) : string :=
  match fuel with
  | O => ""
  | S k =>
      match s with
      | EmptyString => ""
      | String c rest =>
          if Ascii.eqb c "%" then
            match rest with
            | String h (String l rest') =>
                String (ascii_of_nat (16 * hexValue h + hexValue l)) (percentDecode k rest')
            | _ => String c (percentDecode k rest)
            end
          else String c (percentDecode k rest)
      end
  end.

(** * Properties *)

Section SessionFacts.

Context {E : RulesEngine}.

(** ** The effect and the commit of a render *)

Lemma Color_eqb_refl (c : Color) : Color_eqb c c = true.
Proof. destruct c; reflexivity. Qed.

Lemma Color_eqb_eq (a b : Color) : Color_eqb a b = true <-> a = b.
Proof. destruct a, b; simpl; split; congruence. Qed.

Lemma optColor_eqb_refl (c : option Color) : optColor_eqb c c = true.
Proof. destruct c as [c|]; simpl; auto using Color_eqb_refl. Qed.

Lemma depsChanged_refl (s : AppState) : depsChanged s s = false.
Proof.
  unfold depsChanged.
  now rewrite !Nat.eqb_refl, optColor_eqb_refl, Bool.eqb_reflx.
Qed.

(** Updating [gameEndMessage] alone touches no dependency. *)
Lemma depsChanged_endMessage (s : AppState) (m : option string) :
  depsChanged s (setGameEndMessage m s) = false.
Proof.
  unfold depsChanged; cbn.
  now rewrite !Nat.eqb_refl, optColor_eqb_refl, Bool.eqb_reflx.
Qed.

Lemma autoMoveGuard_true (s : AppState) :
  autoMoveGuard s = true ->
  autoTurn s = true /\ isGameOver (game s) = false /\ isAnalyzing s = false.
Proof.
  unfold autoMoveGuard. intros H.
  apply andb_prop in H as [H Ha]. apply andb_prop in H as [Ht Ho].
  apply negb_true_iff in Ha, Ho. auto.
Qed.

(** What the effect does, by its guard. *)
Lemma autoMoveEffect_issue (s : AppState) :
  autoMoveGuard s = true ->
  autoMoveEffect s = (s |> setIsAnalyzing true |> setGameEndMessage None, Some (game s)).
Proof.
  intros H. unfold autoMoveEffect. rewrite H.
  destruct (autoMoveGuard_true s H) as (_ & Ho & _).
  unfold calculateAndPlayBestMove. now rewrite Ho.
Qed.

Lemma autoMoveEffect_idle (s : AppState) :
  autoMoveGuard s = false ->
  autoMoveEffect s =
    (s |> setGameEndMessage
            (if isGameOver (game s) then Some (endMessage (game s)) else None),
     None).
Proof. intros H. unfold autoMoveEffect. now rewrite H. Qed.

(** Two rounds of the effect: either it issues one request for the
    rendered game and raises [isAnalyzing], or it issues nothing. *)
Lemma runEffects_two (s : AppState) (q : list Chess) :
  runEffects 2 s q =
    if autoMoveGuard s then
      {| app := s |> setIsAnalyzing true |> setGameEndMessage None
                  |> setGameEndMessage None;
         inflight := (q ++ [game s]) ++ [] |}
    else
      {| app := s |> setGameEndMessage
                       (if isGameOver (game s) then Some (endMessage (game s)) else None);
         inflight := q ++ [] |}.
Proof.
  destruct (autoMoveGuard s) eqn:G.
  - destruct (autoMoveGuard_true s G) as (Ht & Ho & Ha).
    cbn [runEffects]. rewrite (autoMoveEffect_issue s G).
    assert (D : depsChanged s (s |> setIsAnalyzing true |> setGameEndMessage None) = true).
    { unfold depsChanged; cbn. rewrite Ha, !Nat.eqb_refl, optColor_eqb_refl. reflexivity. }
    rewrite D.
    assert (G' : autoMoveGuard (s |> setIsAnalyzing true |> setGameEndMessage None) = false).
    { unfold autoMoveGuard; cbn. apply andb_false_r. }
    rewrite (autoMoveEffect_idle _ G'). cbn [game setGameEndMessage setIsAnalyzing].
    rewrite Ho, depsChanged_endMessage. reflexivity.
  - cbn [runEffects]. rewrite (autoMoveEffect_idle s G), depsChanged_endMessage.
    reflexivity.
Qed.

(** A third round would change nothing: two rounds settle the effect. *)
Lemma runEffects_settles (k : nat) (s : AppState) (q : list Chess) :
  runEffects (2 + k) s q = runEffects 2 s q.
Proof.
  rewrite runEffects_two.
  destruct (autoMoveGuard s) eqn:G.
  - destruct (autoMoveGuard_true s G) as (Ht & Ho & Ha).
    cbn [runEffects Nat.add]. rewrite (autoMoveEffect_issue s G).
    assert (D : depsChanged s (s |> setIsAnalyzing true |> setGameEndMessage None) = true).
    { unfold depsChanged; cbn. rewrite Ha, !Nat.eqb_refl, optColor_eqb_refl. reflexivity. }
    rewrite D.
    assert (G' : autoMoveGuard (s |> setIsAnalyzing true |> setGameEndMessage None) = false).
    { unfold autoMoveGuard; cbn. apply andb_false_r. }
    rewrite (autoMoveEffect_idle _ G'). cbn [game setGameEndMessage setIsAnalyzing].
    rewrite Ho, depsChanged_endMessage. reflexivity.
  - cbn [runEffects Nat.add]. rewrite (autoMoveEffect_idle s G), depsChanged_endMessage.
    reflexivity.
Qed.

(** The commit of a render, in closed form. *)
Lemma commit_spec (prev next : AppState) (q : list Chess) :
  commit prev next q =
    if depsChanged prev next then
      if autoMoveGuard next then
        {| app := next |> setIsAnalyzing true |> setGameEndMessage None;
           inflight := q ++ [game next] |}
      else
        {| app := next |> setGameEndMessage
                            (if isGameOver (game next)
                             then Some (endMessage (game next)) else None);
           inflight := q |}
    else {| app := next; inflight := q |}.
Proof.
  unfold commit. rewrite runEffects_two.
  destruct (depsChanged prev next); [ | reflexivity ].
  destruct (autoMoveGuard next); now rewrite ?app_nil_r.
Qed.

(** Split a goal about [commit prev next q] into its three cases. *)
Ltac commit_cases prev next :=
  rewrite (commit_spec prev next);
  let D := fresh "D" in
  let G := fresh "G" in
  destruct (depsChanged prev next) eqn:D;
  [ destruct (autoMoveGuard next) eqn:G | ];
  cbn [app inflight].

(** The effect only writes [isAnalyzing] and [gameEndMessage]. *)
Lemma commit_session (prev next : AppState) (q : list Chess) :
  let s := app (commit prev next q) in
  game s = game next /\ positions s = positions next /\
  moveHistory s = moveHistory next /\
  currentMoveIndex s = currentMoveIndex next /\
  currentPosition s = currentPosition next /\
  playerColor s = playerColor next /\ errorMessage s = errorMessage next.
Proof. commit_cases prev next; repeat split. Qed.

(** A commit issues at most one request, only on a changed dependency with
    the guard of the effect true, and for the game just rendered. *)
Lemma commit_inflight (prev next : AppState) (q : list Chess) :
  let y := commit prev next q in
  (inflight y = q /\ isAnalyzing (app y) = isAnalyzing next) \/
  (inflight y = q ++ [game next] /\ isAnalyzing (app y) = true /\
   depsChanged prev next = true /\ autoMoveGuard next = true).
Proof. commit_cases prev next; auto. Qed.

(** While [isAnalyzing] is set, or with no side chosen, nothing is issued. *)
Lemma commit_quiet (prev next : AppState) (q : list Chess) :
  isAnalyzing next = true \/ playerColor next = None ->
  inflight (commit prev next q) = q /\
  isAnalyzing (app (commit prev next q)) = isAnalyzing next.
Proof.
  intros H. destruct (commit_inflight prev next q) as [?|(_ & _ & _ & G)]; auto.
  apply autoMoveGuard_true in G as (Ht & _ & Ha).
  destruct H as [H|H]; [ congruence | ].
  unfold autoTurn, autoColor in Ht. rewrite H in Ht. discriminate.
Qed.

(** ** What the manual path leaves alone *)

Ltac frame_refl := unfold frame; cbn; repeat split; reflexivity.

Lemma frame_deps (s s' : AppState) : frame s s' -> depsChanged s s' = false.
Proof.
  intros (_ & Hg & _ & Hm & _ & _ & _ & Hp & Ha & _).
  unfold depsChanged, autoColor. rewrite Hg, Hm, Hp, Ha.
  now rewrite !Nat.eqb_refl, optColor_eqb_refl, Bool.eqb_reflx.
Qed.

Lemma commit_frame (s s' : AppState) (q : list Chess) :
  frame s s' -> commit s s' q = {| app := s'; inflight := q |}.
Proof. intros F. unfold commit. now rewrite (frame_deps F). Qed.

(** The eligibility gate passes only untouched, with a side chosen, no
    analysis running, a game that is not over and the manual side to move. *)
Lemma isValidManualMove_true (s s1 : AppState) :
  isValidManualMove s = (s1, true) ->
  s1 = s /\ isAnalyzing s = false /\ isGameOver (game s) = false /\
  manualColor s = Some (turn (game s)).
Proof.
  unfold isValidManualMove, manualColor.
  destruct (playerColor s) as [c|]; [ | discriminate ].
  destruct (isAnalyzing s); [ discriminate | ].
  destruct (isGameOver (game s)); [ discriminate | ].
  destruct c; cbn;
    destruct (turn (game s)); cbn; intros H; inversion H; auto.
Qed.

Lemma isValidManualMove_false (s s1 : AppState) :
  isValidManualMove s = (s1, false) ->
  exists msg, s1 = setErrorMessage (Some msg) s.
Proof.
  unfold isValidManualMove, manualColor.
  destruct (playerColor s) as [c|]; [ | intros H; inversion H; eauto ].
  destruct (isAnalyzing s); [ intros H; inversion H; eauto | ].
  destruct (isGameOver (game s)); [ intros H; inversion H; eauto | ].
  destruct c; cbn;
    destruct (turn (game s)); cbn; intros H; inversion H; eauto.
Qed.

Lemma validateManualMove_frame (from to : Square) (s : AppState) :
  frame s (fst (validateManualMove from to s)).
Proof.
  unfold validateManualMove.
  destruct (negb (truthy from) || negb (truthy to)); [ frame_refl | ].
  destruct (manualColor s); [ | frame_refl ].
  destruct (get (game s) from) as [piece|]; [ | frame_refl ].
  destruct (negb (Color_eqb (color piece) c)); [ frame_refl | ].
  destruct (negb (existsb _ _)); frame_refl.
Qed.

(** [makeManualMove] either fails inside the frame, or applies the move
    the engine makes on a copy of the live game. *)
Lemma makeManualMove_cases (from to : Square) (s : AppState) :
  (snd (makeManualMove from to s) = false /\ frame s (fst (makeManualMove from to s))) \/
  (exists newGame move,
      moveObject (loadFen (fen (game s))) from to Queen = Moved newGame move /\
      isValidManualMove s = (s, true) /\
      makeManualMove from to s = (manualMoveApplied newGame move s, true)).
Proof.
  unfold makeManualMove.
  destruct (isValidManualMove s) as [s1 [|]] eqn:V; cbn [negb].
  - apply isValidManualMove_true in V as V'. destruct V' as (-> & _).
    pose proof (validateManualMove_frame from to s) as F.
    destruct (validateManualMove from to s) as [s2 [|]] eqn:L; cbn [negb fst] in *.
    + assert (s2 = s) as ->.
      { revert L. unfold validateManualMove.
        destruct (negb (truthy from) || negb (truthy to)); [ discriminate | ].
        destruct (manualColor s); [ | discriminate ].
        destruct (get (game s) from) as [piece|]; [ | discriminate ].
        destruct (negb (Color_eqb (color piece) c)); [ discriminate | ].
        destruct (negb (existsb _ _)); [ discriminate | ].
        now intros [= <-]. }
      destruct (moveObject (loadFen (fen (game s))) from to Queen) as [g' m| |] eqn:M.
      * right. exists g', m. auto.
      * left. split; [ reflexivity | frame_refl ].
      * left. split; [ reflexivity | frame_refl ].
    + left. split; [ reflexivity | exact F ].
  - left. split; [ reflexivity | ].
    apply isValidManualMove_false in V as [msg ->]. cbn [fst]. frame_refl.
Qed.

Lemma frame_trans (a b c : AppState) : frame a b -> frame b c -> frame a c.
Proof.
  unfold frame. intros Hab Hbc.
  repeat match goal with H : _ /\ _ |- _ => destruct H end.
  repeat split; congruence.
Qed.

Lemma isValidManualMove_frame (s : AppState) : frame s (fst (isValidManualMove s)).
Proof.
  destruct (isValidManualMove s) as [s1 [|]] eqn:V; cbn [fst].
  - apply isValidManualMove_true in V as (-> & _). frame_refl.
  - apply isValidManualMove_false in V as [msg ->]. frame_refl.
Qed.

Lemma selectSquare_frame (square : Square) (s : AppState) :
  frame s (selectSquare square s).
Proof.
  unfold selectSquare, getMoveOptions.
  pose proof (isValidManualMove_frame (s |> setSelectedSquare (Some square))) as F.
  destruct (isValidManualMove (s |> setSelectedSquare (Some square))) as [s1 [|]];
    cbn [negb fst] in *;
    (eapply frame_trans; [ eapply frame_trans; [ | exact F ] | ]; frame_refl).
Qed.

(** A click fails inside the frame, or makes the move from the selected
    square exactly as [makeManualMove] does. *)
Lemma onSquareClick_cases (square : Square) (s : AppState) :
  frame s (onSquareClick square s) \/
  (exists selected newGame move,
      selectedSquare s = Some selected /\
      makeManualMove selected square s = (manualMoveApplied newGame move s, true) /\
      onSquareClick square s = manualMoveApplied newGame move s).
Proof.
  unfold onSquareClick.
  destruct (isValidManualMove s) as [s1 [|]] eqn:V; cbn [negb].
  - apply isValidManualMove_true in V as (-> & _).
    destruct (selectedSquare s) as [selected|].
    + destruct (makeManualMove_cases selected square s)
        as [[Hf F]|(newGame & move & _ & _ & M)].
      * left. destruct (makeManualMove selected square s) as [s2 ok].
        cbn [fst snd] in *. subst ok.
        destruct (ownPieceAt square s).
        -- eapply frame_trans; [ exact F | apply selectSquare_frame ].
        -- eapply frame_trans; [ exact F | frame_refl ].
      * right. exists selected, newGame, move. rewrite M. auto.
    + left. destruct (ownPieceAt square s); [ apply selectSquare_frame | frame_refl ].
  - left. apply isValidManualMove_false in V as [msg ->]. frame_refl.
Qed.

(** ** The oracle continuation *)

Lemma resumeBestMove_cases (g : Chess) (r : OracleResult) (s : AppState) :
  (exists newGame moveResult,
      oracleBranch g r = Played newGame moveResult /\
      resumeBestMove g r s = oracleMoveApplied newGame moveResult s) \/
  ((forall newGame moveResult, oracleBranch g r <> Played newGame moveResult) /\
   resumeBestMove g r s =
     (s |> setErrorMessage (Some (branchError (oracleBranch g r))) |> finallyBlock)).
Proof.
  unfold resumeBestMove.
  destruct (oracleBranch g r) as [ | |newGame moveResult| ];
    try (right; split; [ intros; discriminate | reflexivity ]).
  left. exists newGame, moveResult. auto.
Qed.

(** Only a truthy text that the engine accepts on a copy of the captured
    game is played. *)
Lemma oracleBranch_played (g : Chess) (r : OracleResult) (newGame : Chess) (m : Move) :
  oracleBranch g r = Played newGame m <->
  exists text, r = Resolved text /\ truthy text = true /\
               moveText (loadFen (fen g)) text = Moved newGame m.
Proof.
  unfold oracleBranch. split.
  - destruct r as [text|]; [ | discriminate ].
    destruct (truthy text) eqn:T; cbn [negb]; [ | discriminate ].
    destruct (moveText (loadFen (fen g)) text) eqn:M; try discriminate.
    intros [= <- <-]. eauto.
  - intros (text & -> & T & M). now rewrite T, M.
Qed.

(** ** Navigation *)

Lemma navigateMove_history (d : Direction) (s : AppState) :
  positions (navigateMove d s) = positions s /\
  moveHistory (navigateMove d s) = moveHistory s /\
  game (navigateMove d s) = game s /\
  playerColor (navigateMove d s) = playerColor s /\
  isAnalyzing (navigateMove d s) = isAnalyzing s /\
  depsChanged s (navigateMove d s) = false.
Proof.
  unfold navigateMove.
  destruct (negb _); cbn; repeat split; try apply depsChanged_refl.
  unfold depsChanged; cbn.
  now rewrite !Nat.eqb_refl, optColor_eqb_refl, Bool.eqb_reflx.
Qed.

(** The new cursor is the neighbour of the old one, brought back into
    [0 .. len - 1] on the side the step goes to. *)
Lemma navigateMove_cursor (d : Direction) (s : AppState) :
  currentMoveIndex (navigateMove d s) =
    match d with
    | Forward => Z.min (currentMoveIndex s + 1) (Z.of_nat (List.length (positions s)) - 1)
    | Back => Z.max (currentMoveIndex s - 1) 0
    end.
Proof.
  unfold navigateMove.
  destruct d;
    match goal with |- context [negb (?a =? ?b)] => destruct (Z.eqb_spec a b) as [e|e] end;
    cbn; congruence.
Qed.

(** At a bound the handler returns the state as it is. *)
Lemma navigateMove_at_bounds (s : AppState) :
  (currentMoveIndex s = 0 -> navigateMove Back s = s) /\
  (currentMoveIndex s = Z.of_nat (List.length (positions s)) - 1 ->
   navigateMove Forward s = s).
Proof.
  unfold navigateMove. split; intros H; rewrite H.
  - reflexivity.
  - rewrite Z.min_r by lia. now rewrite Z.eqb_refl.
Qed.

(** From a state whose display agrees with its cursor, one step forward
    and one step back inside the range restore cursor and display. *)
Lemma navigateMove_round_trip (s : AppState) :
  0 <= currentMoveIndex s < Z.of_nat (List.length (positions s)) - 1 ->
  currentPosition s = lookupZ (positions s) (currentMoveIndex s) ->
  let s' := navigateMove Back (navigateMove Forward s) in
  currentMoveIndex s' = currentMoveIndex s /\ currentPosition s' = currentPosition s.
Proof.
  intros R D. unfold navigateMove at 2.
  rewrite Z.min_l by lia.
  destruct (Z.eqb_spec (currentMoveIndex s + 1) (currentMoveIndex s)); [ lia | ].
  cbn [negb]. unfold navigateMove. cbn.
  rewrite Z.max_l by lia.
  destruct (Z.eqb_spec (currentMoveIndex s + 1 - 1) (currentMoveIndex s + 1)); [ lia | ].
  cbn. replace (currentMoveIndex s + 1 - 1) with (currentMoveIndex s) by lia. auto.
Qed.

(** ** Start of a new game, change of side *)

Lemma startNewGame_fields (c : Color) (s : AppState) :
  let s' := startNewGame c s in
  game s' = newChess /\ positions s' = [fen newChess] /\ moveHistory s' = [] /\
  currentMoveIndex s' = -1 /\ currentPosition s' = Some (fen newChess) /\
  playerColor s' = Some c /\ isAnalyzing s' = false.
Proof. cbn. repeat split. Qed.

Lemma startNewGame_deps (c : Color) (s : AppState) :
  depsChanged s (startNewGame c s) = true.
Proof.
  unfold depsChanged.
  replace (gameRef (startNewGame c s)) with (freshRef s) by reflexivity.
  unfold freshRef.
  destruct (Nat.eqb_spec (gameRef s) (S (Nat.max (gameRef s) (moveHistoryRef s)))); [ lia | ].
  reflexivity.
Qed.

(** The session after the start of a new game, effect included. *)
Lemma step_startNewGame (x : Session) (c : Color) :
  let s := app (step x (StartNewGame c)) in
  game s = newChess /\ positions s = [fen newChess] /\ moveHistory s = [] /\
  currentMoveIndex s = -1 /\ playerColor s = Some c.
Proof.
  cbn [step].
  destruct (commit_session (app x) (startNewGame c (app x)) (inflight x))
    as (Hg & Hp & Hm & Hc & _ & Hpc & _).
  cbn zeta. rewrite Hg, Hp, Hm, Hc, Hpc. cbn. auto.
Qed.

(** C4: start-new-game from any state leaves one position (the initial
    one) in history and an empty move log, and it sets the cursor to -1,
    not to 0: the cursor is then no index of history. *)
Theorem startNewGame_cursor_minus_one (x : Session) (c : Color) :
  let s := app (step x (StartNewGame c)) in
  positions s = [fen newChess] /\ moveHistory s = [] /\
  currentMoveIndex s = -1 /\ lookupZ (positions s) (currentMoveIndex s) = None.
Proof.
  destruct (step_startNewGame x c) as (_ & Hp & Hm & Hc & _).
  cbn zeta. rewrite Hp, Hm, Hc. cbn. auto.
Qed.

(** C9 as amended: change-side only unsets the oracle side.  History, move
    log, cursor and live game stay as they are, no request is issued and
    none in flight is dropped; the next start-new-game is what replaces
    history and move log. *)
Theorem changeColor_keeps_session (x : Session) :
  let y := step x ChangeColor in
  playerColor (app y) = None /\
  positions (app y) = positions (app x) /\
  moveHistory (app y) = moveHistory (app x) /\
  currentMoveIndex (app y) = currentMoveIndex (app x) /\
  game (app y) = game (app x) /\
  inflight y = inflight x /\
  (forall c, positions (app (step y (StartNewGame c))) = [fen newChess] /\
             moveHistory (app (step y (StartNewGame c))) = []).
Proof.
  intros y.
  assert (Y : y = commit (app x) (changeColor (app x)) (inflight x)) by reflexivity.
  destruct (commit_session (app x) (changeColor (app x)) (inflight x))
    as (Hg & Hp & Hm & Hc & _ & Hpc & _).
  destruct (commit_quiet (app x) (changeColor (app x)) (inflight x)) as (Hq & _);
    [ right; reflexivity | ].
  rewrite <- Y in *.
  repeat split; try assumption; apply (step_startNewGame y c).
Qed.

(** ** The invariants of a run *)

Lemma inProgress_transfer (s s' : AppState) :
  positions s' = positions s -> moveHistory s' = moveHistory s ->
  currentMoveIndex s' = currentMoveIndex s -> game s' = game s ->
  inProgress s -> inProgress s'.
Proof. unfold inProgress. intros -> -> -> ->. auto. Qed.

Lemma inProgress_append (newGame : Chess) (notation : string) (s s' : AppState) :
  positions s' = positions s ++ [fen newGame] ->
  moveHistory s' = moveHistory s ++ [notation] ->
  currentMoveIndex s' = currentMoveIndex s + 1 -> game s' = newGame ->
  inProgress s -> inProgress s'.
Proof.
  unfold inProgress. intros -> -> -> -> (Hl & Hc & _).
  rewrite !length_app, last_last. cbn [List.length]. repeat split; lia.
Qed.

Lemma frame_inProgress (s s' : AppState) : frame s s' -> inProgress s -> inProgress s'.
Proof.
  intros (Hg & _ & Hm & _ & Hp & Hc & _). now apply inProgress_transfer.
Qed.

Lemma commit_inProgress (prev next : AppState) (q : list Chess) :
  inProgress next -> inProgress (app (commit prev next q)).
Proof.
  destruct (commit_session prev next q) as (Hg & Hp & Hm & Hc & _).
  now apply inProgress_transfer.
Qed.

Lemma navigateMove_inProgress (d : Direction) (s : AppState) :
  inProgress s -> inProgress (navigateMove d s).
Proof.
  intros (Hl & Hc & Hlast).
  destruct (navigateMove_history d s) as (Hp & Hm & Hg & _).
  unfold inProgress. rewrite Hp, Hm, Hg, navigateMove_cursor.
  repeat split; auto; destruct d; lia.
Qed.

Lemma manualMoveApplied_inProgress (newGame : Chess) (move : Move) (s : AppState) :
  inProgress s -> inProgress (manualMoveApplied newGame move s).
Proof.
  intros I.
  apply inProgress_append with (newGame := newGame) (notation := san move) (s := s);
    auto.
Qed.

Lemma resumeBestMove_inProgress (g : Chess) (r : OracleResult) (s : AppState) :
  inProgress s -> inProgress (resumeBestMove g r s).
Proof.
  intros I.
  destruct (resumeBestMove_cases g r s) as [(newGame & m & _ & ->)|(_ & ->)].
  - apply inProgress_append with (newGame := newGame) (notation := san m) (s := s);
      auto.
  - apply inProgress_transfer with (s := s); auto.
Qed.

(** Every event keeps a started session in progress. *)
Lemma step_inProgress (x : Session) (e : Event) :
  inProgress (app x) -> inProgress (app (step x e)).
Proof.
  intros I. destruct e as [c| |d|from to|square|i h].
  - destruct (step_startNewGame x c) as (Hg & Hp & Hm & Hc & _).
    unfold inProgress. rewrite Hg, Hp, Hm, Hc. cbn. repeat split; lia.
  - apply commit_inProgress. now apply inProgress_transfer with (s := app x).
  - apply commit_inProgress. now apply navigateMove_inProgress.
  - apply commit_inProgress. unfold onDrop.
    destruct (makeManualMove_cases from to (app x)) as [[_ F]|(g' & m & _ & _ & ->)].
    + now apply frame_inProgress with (s := app x).
    + now apply manualMoveApplied_inProgress.
  - apply commit_inProgress.
    destruct (onSquareClick_cases square (app x)) as [F|(sel & g' & m & _ & _ & ->)].
    + now apply frame_inProgress with (s := app x).
    + now apply manualMoveApplied_inProgress.
  - cbn [step]. destruct (nth_error (inflight x) i) as [g|]; [ | exact I ].
    apply commit_inProgress. now apply resumeBestMove_inProgress.
Qed.

Lemma mount_spec :
  mount = {| app := initialState
                    |> setGameEndMessage
                         (if isGameOver newChess
                          then Some (endMessage newChess) else None);
             inflight := [] |}.
Proof. unfold mount. rewrite runEffects_two. reflexivity. Qed.

Lemma mount_notStarted : notStarted mount.
Proof. rewrite mount_spec. unfold notStarted. cbn. auto. Qed.

Lemma notValid_without_side (s : AppState) :
  playerColor s = None -> isValidManualMove s <> (s, true).
Proof. unfold isValidManualMove. intros ->. discriminate. Qed.

(** Before the first new game no other event creates a session. *)
Lemma step_notStarted (x : Session) (e : Event) :
  notStarted x -> isStart e = false -> notStarted (step x e).
Proof.
  intros (Hp & Hm & Hc & Hq) S.
  assert (K : forall next,
             positions next = [] -> moveHistory next = [] -> playerColor next = None ->
             notStarted (commit (app x) next (inflight x))).
  { intros next Np Nm Nc.
    destruct (commit_session (app x) next (inflight x)) as (_ & Cp & Cm & _ & _ & Cc & _).
    destruct (commit_quiet (app x) next (inflight x)) as (Cq & _); [ now right | ].
    unfold notStarted. rewrite Cp, Cm, Cc, Cq. auto. }
  destruct e as [c| |d|from to|square|i h]; [ discriminate | | | | | ]; cbn [step].
  - apply K; auto.
  - destruct (navigateMove_history d (app x)) as (Np & Nm & _ & Nc & _).
    apply K; congruence.
  - unfold onDrop.
    destruct (makeManualMove_cases from to (app x)) as [[_ F]|(_ & _ & _ & V & _)].
    + destruct F as (_ & _ & Fm & _ & Fp & _ & _ & Fc & _). apply K; congruence.
    + now apply notValid_without_side in V.
  - destruct (onSquareClick_cases square (app x)) as [F|(sel & g' & m & _ & M & _)].
    + destruct F as (_ & _ & Fm & _ & Fp & _ & _ & Fc & _). apply K; congruence.
    + destruct (makeManualMove_cases sel square (app x)) as [[Hf _]|(_ & _ & _ & V & _)].
      * rewrite M in Hf. discriminate.
      * now apply notValid_without_side in V.
  - rewrite Hq. destruct i; cbn; unfold notStarted; auto.
Qed.

Lemma run_snoc (events : list Event) (e : Event) :
  run (events ++ [e]) = step (run events) e.
Proof. unfold run. now rewrite fold_left_app. Qed.

Lemma started_snoc (events : list Event) (e : Event) :
  started (events ++ [e]) = started events || isStart e.
Proof. unfold started. rewrite existsb_app. cbn. now rewrite orb_false_r. Qed.

(** The state of a run: in progress once a game was started, empty before. *)
Lemma run_invariant (events : list Event) :
  if started events then inProgress (app (run events)) else notStarted (run events).
Proof.
  induction events as [|e events IH] using rev_ind.
  - exact mount_notStarted.
  - rewrite started_snoc, run_snoc.
    destruct (started events); cbn [orb].
    + now apply step_inProgress.
    + destruct (isStart e) eqn:S.
      * destruct e as [c| | | | | ]; try discriminate.
        destruct (step_startNewGame (run events) c) as (Hg & Hp & Hm & Hc & _).
        unfold inProgress. rewrite Hg, Hp, Hm, Hc. cbn. repeat split; lia.
      * now apply step_notStarted.
Qed.

(** ** The manual gate *)

Lemma opposite_manualColor (s : AppState) (c : Color) :
  playerColor s = Some c -> manualColor s = Some (opposite c).
Proof. unfold manualColor. intros ->. now destruct c. Qed.

Lemma not_opposite (a c : Color) : negb (Color_eqb a (opposite c)) = Color_eqb a c.
Proof. now destruct a, c. Qed.

(** The gate of the code is the gate of the specification with the flag
    [isAnalyzing] in the place of the coordinator's state. *)
Lemma makeManualMove_first_error (from to : Square) (s : AppState) :
  truthy from = true -> truthy to = true ->
  movesConsistent (game s) from to ->
  failsWithFirstError (isAnalyzing s) from to s.
Proof.
  intros Tf Tt MC.
  unfold failsWithFirstError, firstApplicableError, makeManualMove, isValidManualMove.
  destruct (playerColor s) as [c|] eqn:P; [ | cbn; auto ].
  destruct (isAnalyzing s); [ cbn; auto | ].
  destruct (isGameOver (game s)); [ cbn; auto | ].
  rewrite (opposite_manualColor s P).
  destruct (negb (Color_eqb (turn (game s)) (opposite c))); [ cbn; auto | ].
  cbn [negb]. unfold validateManualMove.
  rewrite Tf, Tt, (opposite_manualColor s P). cbn [negb orb].
  destruct (get (game s) from) as [piece|]; [ | cbn; auto ].
  rewrite not_opposite.
  destruct (Color_eqb (color piece) c); [ cbn; auto | ].
  destruct (existsb (fun m => (mto m =? to)%string) (moves (game s) from)) eqn:L;
    [ | cbn; auto ].
  cbn [negb].
  apply existsb_exists in L as (m & Hin & Hto). apply String.eqb_eq in Hto.
  destruct (MC m Hin Hto) as (g' & mv & ->). reflexivity.
Qed.

(** Selecting a square clears the message and keeps the selection. *)
Lemma selectSquare_message (square : Square) (s : AppState) :
  errorMessage (selectSquare square s) = None /\
  selectedSquare (selectSquare square s) = Some square.
Proof.
  unfold selectSquare, getMoveOptions.
  destruct (isValidManualMove (s |> setSelectedSquare (Some square))) as [s1 [|]] eqn:V;
    cbn [negb]; split; try reflexivity.
  - apply isValidManualMove_true in V as (-> & _). reflexivity.
  - apply isValidManualMove_false in V as [msg ->]. reflexivity.
Qed.

Lemma selectSquare_after_error (square : Square) (s : AppState) (msg : option string) :
  let s' := selectSquare square (s |> setErrorMessage msg) in
  positions s' = positions s /\ moveHistory s' = moveHistory s /\
  errorMessage s' = None /\ selectedSquare s' = Some square.
Proof.
  intros s'. subst s'.
  destruct (selectSquare_frame square (s |> setErrorMessage msg))
    as (_ & _ & Fm & _ & Fp & _).
  destruct (selectSquare_message square (s |> setErrorMessage msg)) as (Em & Es).
  rewrite Fp, Fm. auto.
Qed.

(** A click on [to] with [from] selected makes the attempt
    [makeManualMove from to]; when the attempt fails in the second phase
    and [to] holds a piece of the manual side, that square is selected
    instead and the message of the failed attempt is cleared (lines
    183-188); every other failure leaves its message and no selection. *)
Lemma onSquareClick_first_error (from to : Square) (s : AppState) :
  truthy from = true -> truthy to = true ->
  movesConsistent (game s) from to ->
  selectedSquare s = Some from ->
  clickOutcome (isAnalyzing s) from to s.
Proof.
  intros Tf Tt MC Sel.
  unfold clickOutcome, firstApplicableError, onSquareClick, isValidManualMove.
  cbv zeta.
  destruct (playerColor s) as [c|] eqn:P; [ | cbn; auto ].
  destruct (isAnalyzing s) eqn:A; [ cbn; auto | ].
  destruct (isGameOver (game s)) eqn:O; [ cbn; auto | ].
  rewrite (opposite_manualColor s P).
  destruct (negb (Color_eqb (turn (game s)) (opposite c))) eqn:T; [ cbn; auto | ].
  cbn [negb]. rewrite Sel.
  unfold makeManualMove, isValidManualMove.
  rewrite P, A, O, (opposite_manualColor s P), T. cbn [negb].
  unfold validateManualMove.
  rewrite Tf, Tt, (opposite_manualColor s P). cbn [negb orb].
  destruct (get (game s) from) as [piece|].
  2: { cbn [negb legalityError andb fst snd].
       destruct (ownPieceAt to s); [ apply selectSquare_after_error | cbn; auto ]. }
  rewrite not_opposite.
  destruct (Color_eqb (color piece) c).
  { cbn [negb legalityError andb fst snd].
    destruct (ownPieceAt to s); [ apply selectSquare_after_error | cbn; auto ]. }
  destruct (existsb (fun m => (mto m =? to)%string) (moves (game s) from)) eqn:L.
  2: { cbn [negb legalityError andb fst snd].
       destruct (ownPieceAt to s); [ apply selectSquare_after_error | cbn; auto ]. }
  cbn [negb].
  apply existsb_exists in L as (m & Hin & Hto). apply String.eqb_eq in Hto.
  destruct (MC m Hin Hto) as (g' & mv & ->). reflexivity.
Qed.

(** C3 as amended: in every run in which a game was started, the move log
    is one shorter than history and the cursor is at most the last index of
    history; before the first start-new-game history and move log are both
    empty. *)
Theorem session_invariant (events : list Event) :
  let s := app (run events) in
  if started events then
    Z.of_nat (List.length (moveHistory s)) = Z.of_nat (List.length (positions s)) - 1 /\
    currentMoveIndex s <= Z.of_nat (List.length (positions s)) - 1
  else positions s = [] /\ moveHistory s = [].
Proof.
  cbn zeta. pose proof (run_invariant events) as I.
  destruct (started events).
  - destruct I as (Hl & Hc & _). split; lia.
  - destruct I as (Hp & Hm & _). auto.
Qed.

(** ** The oracle *)

Lemma getBestMoveOnline_resolved (h : HttpOutcome) (text : string) :
  getBestMoveOnline h = Resolved text <->
  h = HttpResponse (Some {| success := true; bestmove := Some text |}) /\
  truthy text = true.
Proof.
  split.
  - destruct h as [|[[ok [bm|]]|]]; cbn; try discriminate.
    destruct ok; cbn; [ | discriminate ].
    destruct (truthy bm) eqn:T; [ | discriminate ].
    intros [= ->]. auto.
  - intros (-> & T). cbn. now rewrite T.
Qed.

Lemma truthy_nonempty (text : string) : truthy text = true <-> text <> "".
Proof.
  unfold truthy. rewrite negb_true_iff. split.
  - intros H ->. discriminate.
  - intros H. now apply String.eqb_neq.
Qed.

(** C10: [getBestMoveOnline] resolves only to a non-empty [bestmove] and
    rejects otherwise, so the continuation never takes its [!bestMove]
    branch; when the oracle fails, the [catch] branch sets
    "Error calculating move". *)
Theorem oracle_never_resolves_falsy (h : HttpOutcome) (g : Chess) (s : AppState) :
  ((exists text, getBestMoveOnline h = Resolved text /\ text <> "") \/
   getBestMoveOnline h = Rejected) /\
  oracleBranch g (getBestMoveOnline h) <> NoSuggestion /\
  (getBestMoveOnline h = Rejected ->
   oracleBranch g (getBestMoveOnline h) = Caught /\
   errorMessage (resumeBestMove g (getBestMoveOnline h) s)
     = Some "Error calculating move").
Proof.
  destruct (getBestMoveOnline h) as [text|] eqn:R.
  - apply getBestMoveOnline_resolved in R as (_ & T).
    split; [ left; exists text; split; [ reflexivity | now apply truthy_nonempty ] | ].
    split; [ | discriminate ].
    unfold oracleBranch. rewrite T. cbn [negb].
    destruct (moveText (loadFen (fen g)) text); discriminate.
  - split; [ now right | ]. split; [ discriminate | ]. intros _. split; reflexivity.
Qed.

(** C1 as amended: the response of a request in flight is not compared
    with the position of the session.  When its text names a move the
    engine makes on the position the request was issued for, the resulting
    position becomes the live game and is appended, with its notation, to
    whatever history and move log the session has when the response
    arrives. *)
Theorem oracle_move_applied_to_request_position
    (x : Session) (i : nat) (g : Chess) (h : HttpOutcome) (text : string)
    (newGame : Chess) (m : Move) :
  nth_error (inflight x) i = Some g ->
  getBestMoveOnline h = Resolved text ->
  moveText (loadFen (fen g)) text = Moved newGame m ->
  let y := step x (OracleSettles i h) in
  game (app y) = newGame /\
  positions (app y) = positions (app x) ++ [fen newGame] /\
  moveHistory (app y) = moveHistory (app x) ++ [san m].
Proof.
  intros Hi R M. cbn [step]. rewrite Hi, R.
  destruct (commit_session (app x) (resumeBestMove g (Resolved text) (app x))
              (removeNth i (inflight x))) as (Hg & Hp & Hm & _).
  apply getBestMoveOnline_resolved in R as (_ & T).
  assert (B : oracleBranch g (Resolved text) = Played newGame m).
  { apply oracleBranch_played. eauto. }
  cbn zeta. rewrite Hg, Hp, Hm. unfold resumeBestMove. rewrite B. cbn. auto.
Qed.

(** C8 as amended: when the oracle resolves with a text that the engine
    does not accept on the position the request was issued for, an error
    message is set ("Invalid AI move", or "Error calculating move" when the
    engine throws), and history, move log and live game (so the side to
    move) are unchanged.  The continuation clears [isAnalyzing]; that is a
    dependency of the auto-move effect, so when the flag was set and the
    oracle side is to move in a game that is not over, the effect issues a
    new request at once: the session is awaiting again. *)
Theorem illegal_suggestion_reported_and_retried
    (x : Session) (i : nat) (g : Chess) (h : HttpOutcome) (text : string) :
  nth_error (inflight x) i = Some g ->
  getBestMoveOnline h = Resolved text ->
  (forall newGame m, moveText (loadFen (fen g)) text <> Moved newGame m) ->
  let s := app x in
  let y := step x (OracleSettles i h) in
  let retry := isAnalyzing s && autoTurn s && negb (isGameOver (game s)) in
  (errorMessage (app y) = Some "Invalid AI move" \/
   errorMessage (app y) = Some "Error calculating move") /\
  positions (app y) = positions s /\ moveHistory (app y) = moveHistory s /\
  game (app y) = game s /\
  isAnalyzing (app y) = retry /\
  inflight y = removeNth i (inflight x) ++ (if retry then [game s] else []).
Proof.
  intros Hi R M. cbn [step]. rewrite Hi, R.
  apply getBestMoveOnline_resolved in R as (_ & T).
  set (next := resumeBestMove g (Resolved text) (app x)).
  assert (N : exists msg,
             (msg = "Invalid AI move" \/ msg = "Error calculating move") /\
             next = (app x |> setErrorMessage (Some msg) |> finallyBlock)).
  { unfold next, resumeBestMove, oracleBranch. rewrite T. cbn [negb].
    destruct (moveText (loadFen (fen g)) text) as [g' m| |] eqn:Mt.
    - now destruct (M g' m).
    - eexists. split; [ left; reflexivity | reflexivity ].
    - eexists. split; [ right; reflexivity | reflexivity ]. }
  destruct N as (msg & Hmsg & N).
  assert (D : depsChanged (app x) next = isAnalyzing (app x)).
  { rewrite N. unfold depsChanged, autoColor; cbn.
    rewrite !Nat.eqb_refl, optColor_eqb_refl. now destruct (isAnalyzing (app x)). }
  assert (G : autoMoveGuard next = autoTurn (app x) && negb (isGameOver (game (app x)))).
  { rewrite N. unfold autoMoveGuard, autoTurn, autoColor; cbn. now rewrite andb_true_r. }
  cbn zeta. rewrite (commit_spec (app x) next), D, G.
  destruct (isAnalyzing (app x)); cbn [andb].
  - destruct (autoTurn (app x) && negb (isGameOver (game (app x)))) eqn:A;
      rewrite N; cbn; rewrite ?app_nil_r;
      repeat split; auto; destruct Hmsg as [-> | ->]; auto.
  - rewrite N; cbn; rewrite ?app_nil_r;
      repeat split; auto; destruct Hmsg as [-> | ->]; auto.
Qed.

(** ** One request at a time *)

Lemma resumeBestMove_clears_flag (g : Chess) (r : OracleResult) (s : AppState) :
  isAnalyzing (resumeBestMove g r s) = false.
Proof.
  destruct (resumeBestMove_cases g r s) as [(newGame & m & _ & ->)|(_ & ->)];
    reflexivity.
Qed.

Lemma commit_singleFlight (prev next : AppState) (q : list Chess) :
  List.length q = (if isAnalyzing next then 1%nat else 0%nat) ->
  singleFlight (commit prev next q).
Proof.
  intros L. unfold singleFlight.
  destruct (commit_inflight prev next q) as [(-> & ->)|(-> & -> & _ & G)]; [ exact L | ].
  apply autoMoveGuard_true in G as (_ & _ & A). rewrite A in L.
  rewrite length_app, L. reflexivity.
Qed.

Lemma removeNth_single {A : Type} (i : nat) (l : list A) (a : A) :
  List.length l = 1%nat -> nth_error l i = Some a -> removeNth i l = [].
Proof.
  destruct l as [|b [|c l]]; try discriminate. intros _.
  destruct i as [|i]; [ reflexivity | destruct i; discriminate ].
Qed.

(** An event keeps the flag and the requests in flight in step, unless it
    starts a new game while a request is in flight. *)
Lemma step_singleFlight (x : Session) (e : Event) :
  singleFlight x -> (isStart e = true -> inflight x = []) ->
  singleFlight (step x e).
Proof.
  intros J Q. destruct e as [c| |d|from to|square|i h]; cbn [step].
  - apply commit_singleFlight. now rewrite (Q eq_refl).
  - apply commit_singleFlight. exact J.
  - apply commit_singleFlight.
    destruct (navigateMove_history d (app x)) as (_ & _ & _ & _ & -> & _). exact J.
  - apply commit_singleFlight. unfold onDrop.
    destruct (makeManualMove_cases from to (app x)) as [[_ F]|(g' & m & _ & V & ->)].
    + destruct F as (_ & _ & _ & _ & _ & _ & _ & _ & -> & _). exact J.
    + exact J.
  - apply commit_singleFlight.
    destruct (onSquareClick_cases square (app x)) as [F|(sel & g' & m & _ & _ & ->)].
    + destruct F as (_ & _ & _ & _ & _ & _ & _ & _ & -> & _). exact J.
    + exact J.
  - destruct (nth_error (inflight x) i) as [g|] eqn:N; [ | exact J ].
    apply commit_singleFlight. rewrite resumeBestMove_clears_flag.
    unfold singleFlight in J.
    destruct (isAnalyzing (app x)).
    + now rewrite (removeNth_single i (inflight x) J N).
    + destruct (inflight x); [ now destruct i | discriminate ].
Qed.

Lemma mount_singleFlight : singleFlight mount.
Proof. rewrite mount_spec. reflexivity. Qed.

Lemma quiet_run_singleFlight (events : list Event) (x : Session) :
  singleFlight x -> restartsOnlyWhenIdle x events = true ->
  singleFlight (fold_left step events x).
Proof.
  revert x. induction events as [|e events IH]; intros x J Q; [ exact J | ].
  cbn [restartsOnlyWhenIdle] in Q. apply andb_prop in Q as (Qe & Qr).
  cbn [fold_left]. apply IH; [ | exact Qr ].
  apply step_singleFlight; [ exact J | ].
  intros S. rewrite S in Qe. now destruct (inflight x).
Qed.

Lemma commit_inflightLive_empty (prev next : AppState) :
  inflightLive (commit prev next []).
Proof.
  unfold inflightLive.
  destruct (commit_session prev next []) as (-> & _).
  destruct (commit_inflight prev next []) as [(-> & _)|(-> & _)]; cbn; intros g Hin.
  - destruct Hin.
  - destruct Hin as [<-|[]]. reflexivity.
Qed.

Lemma inflightLive_same (x y : Session) :
  inflight y = inflight x -> game (app y) = game (app x) ->
  inflightLive x -> inflightLive y.
Proof. unfold inflightLive. intros -> ->. auto. Qed.

(** Under the same condition, the requests in flight stay those of the
    live game. *)
Lemma step_inflightLive (x : Session) (e : Event) :
  singleFlight x -> inflightLive x -> (isStart e = true -> inflight x = []) ->
  inflightLive (step x e).
Proof.
  intros J L Q. destruct e as [c| |d|from to|square|i h]; cbn [step].
  - rewrite (Q eq_refl). apply commit_inflightLive_empty.
  - apply inflightLive_same with (x := x); [ | | exact L ].
    + apply commit_quiet. now right.
    + now destruct (commit_session (app x) (changeColor (app x)) (inflight x)) as (-> & _).
  - destruct (navigateMove_history d (app x)) as (_ & _ & Hg & _ & _ & D).
    unfold commit. rewrite D. now apply inflightLive_same with (x := x).
  - unfold onDrop.
    destruct (makeManualMove_cases from to (app x)) as [[_ F]|(g' & m & _ & V & ->)].
    + rewrite (commit_frame _ F). destruct F as (Hg & _).
      now apply inflightLive_same with (x := x).
    + apply isValidManualMove_true in V as (_ & A & _).
      unfold singleFlight in J. rewrite A in J.
      destruct (inflight x); [ | discriminate ]. apply commit_inflightLive_empty.
  - destruct (onSquareClick_cases square (app x)) as [F|(sel & g' & m & _ & M & ->)].
    + rewrite (commit_frame _ F). destruct F as (Hg & _).
      now apply inflightLive_same with (x := x).
    + destruct (makeManualMove_cases sel square (app x)) as [[Hf _]|(_ & _ & _ & V & _)];
        [ rewrite M in Hf; discriminate | ].
      apply isValidManualMove_true in V as (_ & A & _).
      unfold singleFlight in J. rewrite A in J.
      destruct (inflight x); [ | discriminate ]. apply commit_inflightLive_empty.
  - destruct (nth_error (inflight x) i) as [g|] eqn:N; [ | exact L ].
    unfold singleFlight in J.
    destruct (isAnalyzing (app x)).
    + rewrite (removeNth_single i (inflight x) J N). apply commit_inflightLive_empty.
    + destruct (inflight x); [ now destruct i | discriminate ].
Qed.

Lemma quiet_run_inflightLive (events : list Event) (x : Session) :
  singleFlight x -> inflightLive x -> restartsOnlyWhenIdle x events = true ->
  inflightLive (fold_left step events x).
Proof.
  revert x. induction events as [|e events IH]; intros x J L Q; [ exact L | ].
  cbn [restartsOnlyWhenIdle] in Q. apply andb_prop in Q as (Qe & Qr).
  assert (Q' : isStart e = true -> inflight x = []).
  { intros S. rewrite S in Qe. now destruct (inflight x). }
  cbn [fold_left]. apply IH; [ | | exact Qr ].
  - now apply step_singleFlight.
  - now apply step_inflightLive.
Qed.

Lemma mount_inflightLive : inflightLive mount.
Proof. rewrite mount_spec. intros g []. Qed.

(** While the flag is set, an event that is neither a new game nor the
    settling of the request issues nothing. *)
Lemma step_while_analyzing (x : Session) (e : Event) :
  isAnalyzing (app x) = true -> isStart e = false ->
  (forall i h, e <> OracleSettles i h) ->
  inflight (step x e) = inflight x.
Proof.
  intros A S O. destruct e as [c| |d|from to|square|i h]; cbn [step].
  - discriminate.
  - apply commit_quiet. now left.
  - apply commit_quiet. left.
    now destruct (navigateMove_history d (app x)) as (_ & _ & _ & _ & -> & _).
  - unfold onDrop.
    destruct (makeManualMove_cases from to (app x)) as [[_ F]|(_ & _ & _ & V & _)].
    + now rewrite (commit_frame _ F).
    + apply isValidManualMove_true in V as (_ & V & _). congruence.
  - destruct (onSquareClick_cases square (app x)) as [F|(sel & g' & m & _ & M & _)].
    + now rewrite (commit_frame _ F).
    + destruct (makeManualMove_cases sel square (app x)) as [[Hf _]|(_ & _ & _ & V & _)].
      * rewrite M in Hf. discriminate.
      * apply isValidManualMove_true in V as (_ & V & _). congruence.
  - now destruct (O i h).
Qed.

(** C6 as amended: in every run in which no new game is started while a
    request is in flight, at most one oracle request is outstanding,
    [isAnalyzing] is set exactly while it is, and while it is set no event
    other than a new game or the settling of that request issues a second
    one. *)
Theorem single_request_unless_restarted (events : list Event) :
  restartsOnlyWhenIdle mount events = true ->
  let x := run events in
  (List.length (inflight x) <= 1)%nat /\
  (isAnalyzing (app x) = true <-> inflight x <> []) /\
  (forall e, isAnalyzing (app x) = true -> isStart e = false ->
             (forall i h, e <> OracleSettles i h) ->
             inflight (step x e) = inflight x).
Proof.
  intros Q x.
  assert (J : singleFlight x)
    by (apply quiet_run_singleFlight; [ exact mount_singleFlight | exact Q ]).
  unfold singleFlight in J.
  split; [ | split ].
  - rewrite J. destruct (isAnalyzing (app x)); lia.
  - destruct (isAnalyzing (app x)), (inflight x); cbn in J; split;
      intros; congruence.
  - intros e. apply step_while_analyzing.
Qed.

(** ** The manual gate and the request in flight *)

(** In a run that starts a new game only when no request is in flight, the
    flag says whether a request is outstanding. *)
Lemma quiet_run_flag (events : list Event) :
  restartsOnlyWhenIdle mount events = true ->
  isAnalyzing (app (run events)) = requestOutstanding (run events).
Proof.
  intros Q.
  assert (J : singleFlight (run events))
    by (apply quiet_run_singleFlight; [ exact mount_singleFlight | exact Q ]).
  unfold singleFlight in J. unfold requestOutstanding.
  destruct (isAnalyzing (app (run events))), (inflight (run events));
    cbn in J; congruence.
Qed.

(** C5 as amended: a manual attempt that does not succeed fails with the
    first applicable error in the order NoActiveGame, AnalysisInProgress,
    GameOver, WrongTurn, NoPieceAtSource, WrongPieceColor, IllegalMove,
    where AnalysisInProgress stands for the flag [isAnalyzing] being set;
    history and move log are unchanged.  A drop reports that error.  A
    click with an origin selected reports it too, except that a failure of
    the last three kinds on a square holding a piece of the manual side
    selects that square and clears the message.  The checks read the live
    game, which is the last position of history in every run with a game
    started, and neither the cursor nor the displayed position.  In a run
    that starts a new game only while no request is in flight, the flag is
    set exactly while a request is outstanding. *)
Theorem manual_move_first_error (from to : Square) (s : AppState) :
  truthy from = true -> truthy to = true ->
  movesConsistent (game s) from to ->
  onDrop from to s = makeManualMove from to s /\
  failsWithFirstError (isAnalyzing s) from to s /\
  (selectedSquare s = Some from -> clickOutcome (isAnalyzing s) from to s) /\
  (forall cursor shown,
      let s' := s |> setCurrentMoveIndex (fun _ => cursor) |> setCurrentPosition shown in
      firstApplicableError (isAnalyzing s') from to s'
        = firstApplicableError (isAnalyzing s) from to s /\
      failsWithFirstError (isAnalyzing s') from to s') /\
  (forall events, s = app (run events) ->
      (started events = true -> last (positions s) "" = fen (game s)) /\
      (restartsOnlyWhenIdle mount events = true ->
       isAnalyzing s = requestOutstanding (run events) /\
       failsWithFirstError (requestOutstanding (run events)) from to s)).
Proof.
  intros Tf Tt MC.
  split; [ reflexivity | ].
  split; [ now apply makeManualMove_first_error | ].
  split; [ | split ].
  - intros Sel. now apply onSquareClick_first_error.
  - intros cursor shown s'. split; [ reflexivity | ].
    now apply makeManualMove_first_error.
  - intros events ->. split.
    + intros S. pose proof (run_invariant events) as I. rewrite S in I. apply I.
    + intros Q. rewrite <- (quiet_run_flag events Q).
      split; [ reflexivity | now apply makeManualMove_first_error ].
Qed.

(** ** The application of a move *)

(** C2 as amended: in every run with a game started, a successful manual
    move is the engine's move on the last position of history, whatever the
    cursor, and a successful oracle move is the engine's move on the
    position its request was issued for; either appends exactly one entry
    to history and one to the move log, and the new position becomes the
    live game and the displayed position.  The position of a request in
    flight is the last position of history as long as no new game was
    started while a request was in flight. *)
Theorem move_application_appends_one (events : list Event) :
  started events = true ->
  let x := run events in
  let s := app x in
  (forall from to,
      snd (makeManualMove from to s) = true ->
      exists newGame move,
        moveObject (loadFen (last (positions s) "")) from to Queen = Moved newGame move /\
        moveApplied newGame move s (fst (makeManualMove from to s))) /\
  (forall i g h newGame move,
      nth_error (inflight x) i = Some g ->
      oracleBranch g (getBestMoveOnline h) = Played newGame move ->
      (exists text, moveText (loadFen (fen g)) text = Moved newGame move) /\
      moveApplied newGame move s (app (step x (OracleSettles i h)))) /\
  (restartsOnlyWhenIdle mount events = true ->
   forall g, In g (inflight x) -> fen g = last (positions s) "").
Proof.
  intros S x s.
  pose proof (run_invariant events) as I. rewrite S in I.
  destruct I as (_ & _ & L). fold x s in L.
  split; [ | split ].
  - intros from to Ok.
    destruct (makeManualMove_cases from to s) as [[Hf _]|(g' & m & M & _ & R)];
      [ congruence | ].
    exists g', m. rewrite L, R. split; [ exact M | ]. cbn. repeat split.
  - intros i g h newGame move N B.
    split.
    + apply oracleBranch_played in B as (text & _ & _ & M). eauto.
    + cbn [step]. fold x. rewrite N.
      destruct (commit_session s (resumeBestMove g (getBestMoveOnline h) s)
                  (removeNth i (inflight x))) as (Hg & Hp & Hm & _ & Hc & _).
      unfold moveApplied. fold s. rewrite Hg, Hp, Hm, Hc.
      unfold resumeBestMove. rewrite B. cbn. repeat split.
  - intros Q g Hin. rewrite L.
    assert (K : inflightLive x).
    { apply quiet_run_inflightLive;
        [ exact mount_singleFlight | exact mount_inflightLive | exact Q ]. }
    now rewrite (K g Hin).
Qed.

(** What a successful manual move does in a run with a game started: the
    new position is the engine's move on the last position of history;
    history and move log grow by one entry each; the cursor advances by
    one from where it was. *)
Lemma manual_move_effect (events : list Event) (from to : Square) :
  started events = true ->
  let s := app (run events) in
  snd (makeManualMove from to s) = true ->
  exists newGame move,
    moveObject (loadFen (last (positions s) "")) from to Queen = Moved newGame move /\
    positions (fst (makeManualMove from to s)) = positions s ++ [fen newGame] /\
    moveHistory (fst (makeManualMove from to s)) = moveHistory s ++ [san move] /\
    currentMoveIndex (fst (makeManualMove from to s)) = currentMoveIndex s + 1 /\
    currentPosition (fst (makeManualMove from to s)) = Some (fen newGame).
Proof.
  intros S s Ok.
  pose proof (run_invariant events) as I. rewrite S in I.
  destruct I as (_ & _ & L). fold s in L.
  destruct (makeManualMove_cases from to s) as [[Hf _]|(g' & m & M & _ & R)];
    [ congruence | ].
  exists g', m. rewrite L, R. cbn. auto.
Qed.

End SessionFacts.

(** * The session on concrete runs *)

#[local] Existing Instance Stub.engine.

(** The gate of [makeManualMove] on the runs of the stub, error by error. *)
Example no_active_game :
  errorMessage (fst (onDrop "g1" "f3" (app mount))) = Some (errorText NoActiveGame).
Proof. reflexivity. Qed.

Example analysis_in_progress :
  errorMessage (fst (onDrop "g8" "f6" (app Stub.awaitingOpening)))
    = Some (errorText AnalysisInProgress).
Proof. reflexivity. Qed.

Example no_piece_at_source :
  errorMessage (fst (onDrop "e5" "f6" (app Stub.afterOpening)))
    = Some (errorText NoPieceAtSource).
Proof. reflexivity. Qed.

Example wrong_piece_color :
  errorMessage (fst (onDrop "f3" "g1" (app Stub.afterOpening)))
    = Some (errorText WrongPieceColor).
Proof. reflexivity. Qed.

Example illegal_move :
  errorMessage (fst (onDrop "g8" "h6" (app Stub.afterOpening)))
    = Some (errorText IllegalMove).
Proof. reflexivity. Qed.

(** C1, counterexample: the oracle plays Black; a request for the reply to
    Nf3 is in flight when a new game is started, so history is back to the
    initial position.  The response Nf6 is not discarded: the position
    after Nf3 Nf6 and the notation Nf6 are appended. *)
Lemma stale_oracle_move_is_applied :
  inflight Stub.restartedWhileAwaiting = ["Nf3 "] /\
  positions (app Stub.restartedWhileAwaiting) = [""] /\
  positions (app (step Stub.restartedWhileAwaiting (OracleSettles 0 (Stub.ok "Nf6"))))
    = [""; "Nf3 Nf6 "] /\
  ~ staleResponseDiscarded Stub.restartedWhileAwaiting 0 (Stub.ok "Nf6").
Proof.
  repeat split; try reflexivity.
  intros H. destruct (H "Nf3 ") as (Hp & _).
  - reflexivity.
  - vm_compute. discriminate.
  - vm_compute in Hp. discriminate.
Qed.

(** The amended C1 on that run. *)
Lemma oracle_move_applied_witness :
  let x := Stub.restartedWhileAwaiting in
  let y := step x (OracleSettles 0 (Stub.ok "Nf6")) in
  nth_error (inflight x) 0 = Some "Nf3 " /\
  game (app y) = "Nf3 Nf6 " /\
  positions (app y) = positions (app x) ++ ["Nf3 Nf6 "] /\
  moveHistory (app y) = moveHistory (app x) ++ ["Nf6"].
Proof.
  split; [ reflexivity | ].
  apply (@oracle_move_applied_to_request_position Stub.engine
           Stub.restartedWhileAwaiting 0 "Nf3 " (Stub.ok "Nf6") "Nf6" "Nf3 Nf6 "
           {| mfrom := "g8"; mto := "f6"; san := "Nf6" |});
    reflexivity.
Defined.

(** The cursor after a move made with the cursor navigated away: two plies
    played, one step back in the history, then the manual side moves its
    knight back by two clicks.  History and move log grow by one entry, the
    board shows the new last position, and the cursor is 1, not the new
    last index 3. *)
Lemma move_after_navigation_cursor :
  let x := Stub.navigatedBack in
  let y := step (step x (SquareClick "f3")) (SquareClick "g1") in
  positions (app x) = [""; "Nf3 "; "Nf3 Nf6 "] /\
  currentMoveIndex (app x) = 0 /\
  positions (app y) = [""; "Nf3 "; "Nf3 Nf6 "; "Nf3 Nf6 Ng1 "] /\
  moveHistory (app y) = ["Nf3"; "Nf6"; "Ng1"] /\
  currentPosition (app y) = Some "Nf3 Nf6 Ng1 " /\
  currentMoveIndex (app y) = 1.
Proof. vm_compute. repeat split. Qed.

(** The first move of the stub's game leads to the position after Nf3. *)
Lemma stub_first_move (newGame : string) (move : Move) :
  (exists text, moveText (loadFen (last [""] "")) text = Moved newGame move) \/
  (exists from to, moveObject (loadFen (last [""] "")) from to Queen = Moved newGame move) ->
  newGame = "Nf3 ".
Proof.
  intros [(text & M)|(from & to & M)].
  - change (Stub.stubMoveText "" text = Moved newGame move) in M.
    unfold Stub.stubMoveText in M.
    change (Stub.stubMoves "" (Stub.knightOf "")) with [Stub.legalMove ""] in M.
    cbn [find] in M.
    destruct ((san (Stub.legalMove "") =? text)%string
              || (mfrom (Stub.legalMove "") ++ mto (Stub.legalMove "") =? text)%string);
      [ | discriminate ].
    now injection M as <- _.
  - change (Stub.stubMoveObject "" from to Queen = Moved newGame move) in M.
    unfold Stub.stubMoveObject in M.
    change (Stub.stubMoves "" from)
      with (if (from =? "g1")%string then [Stub.legalMove ""] else []) in M.
    destruct (from =? "g1")%string; [ | discriminate ].
    cbn [find] in M. change (mto (Stub.legalMove "")) with "f3" in M.
    destruct ("f3" =? to)%string; [ | discriminate ].
    now injection M as <- _.
Qed.

(** C2, counterexample: the response Nf6 to the request issued after Nf3
    arrives when a new game has put history back to the initial position.
    The appended position, after Nf3 Nf6, is no move of the engine on
    history[last], and the cursor, 0, is not the new last index 1. *)
Lemma oracle_move_not_from_last_position :
  let x := Stub.restartedWhileAwaiting in
  let y := step x (OracleSettles 0 (Stub.ok "Nf6")) in
  last (positions (app x)) "" = "" /\
  positions (app y) = [""; "Nf3 Nf6 "] /\ moveHistory (app y) = ["Nf6"] /\
  currentMoveIndex (app y) = 0 /\
  ~ computedFromLast (app x) (app y) /\ ~ cursorAtLast (app y).
Proof.
  repeat split; try reflexivity.
  - intros (newGame & move & M & Hp & _).
    apply stub_first_move in M. subst newGame. vm_compute in Hp. discriminate.
  - intros H. vm_compute in H. discriminate.
Qed.

(** The amended C2 on a run: the oracle's first move, Nf3, is made on the
    position of its request, the initial one. *)
Lemma move_application_witness :
  let x := Stub.awaitingOpening in
  let move := {| mfrom := "g1"; mto := "f3"; san := "Nf3" |} in
  started [StartNewGame W] = true /\
  moveApplied "Nf3 " move (app x) (app (step x (OracleSettles 0 (Stub.ok "Nf3")))).
Proof.
  split; [ reflexivity | ].
  refine (proj2 (proj1 (proj2 (@move_application_appends_one Stub.engine
                                 [StartNewGame W] _))
                   0%nat "" (Stub.ok "Nf3") "Nf3 "
                   {| mfrom := "g1"; mto := "f3"; san := "Nf3" |} _ _));
    reflexivity.
Defined.

(** C3, counterexample: in the initial state, before the first
    start-new-game, history and move log are both empty and the cursor is
    -1. *)
Lemma initial_state_not_well_formed :
  positions (app (run [])) = [] /\ moveHistory (app (run [])) = [] /\
  lookupZ (positions (app (run []))) (currentMoveIndex (app (run []))) = None /\
  ~ historyWellFormed (app (run [])).
Proof.
  repeat split; try reflexivity.
  intros (H & _). vm_compute in H. discriminate.
Qed.

(** The consistency of the stub's two views of its legal moves. *)
Lemma stub_movesConsistent (g : string) (from to : Square) :
  movesConsistent g from to.
Proof.
  intros m Hin Hto. cbn in *. unfold Stub.stubMoveObject.
  unfold Stub.stubMoves in *.
  destruct (Stub.stubOver g); [ contradiction | ].
  destruct (from =? Stub.knightOf g)%string; [ | contradiction ].
  destruct Hin as [<-|[]]. cbn [find]. rewrite Hto, String.eqb_refl. eauto.
Qed.

(** C5, counterexample.  The oracle plays Black; White's Nf3 is made by
    hand, and with the request for the reply in flight a new game is
    started.  The request is still outstanding, so the specification's
    gate answers AnalysisInProgress; the code has cleared the flag: a drop
    g1-f3 is accepted, and a drop from the empty e5 fails with
    NoPieceAtSource.  And after the oracle's Nf3 with g8 selected, a click
    on g8 is the attempt g8-g8, which fails with IllegalMove; the click
    selects g8 again and leaves no message. *)
Lemma outstanding_request_does_not_block :
  (let x := Stub.restartedWhileAwaiting in
   requestOutstanding x = true /\ isAnalyzing (app x) = false /\
   firstApplicableError (requestOutstanding x) "g1" "f3" (app x)
     = Some AnalysisInProgress /\
   snd (onDrop "g1" "f3" (app x)) = true /\
   errorMessage (fst (onDrop "e5" "f6" (app x))) = Some (errorText NoPieceAtSource) /\
   ~ failsWithFirstError (requestOutstanding x) "g1" "f3" (app x)) /\
  (let x := step Stub.afterOpening (SquareClick "g8") in
   selectedSquare (app x) = Some "g8" /\
   firstApplicableError (requestOutstanding x) "g8" "g8" (app x) = Some IllegalMove /\
   errorMessage (onSquareClick "g8" (app x)) = None /\
   ~ clickFailsWithFirstError (requestOutstanding x) "g8" "g8" (app x)).
Proof.
  split; cbv zeta.
  - assert (E : firstApplicableError (requestOutstanding Stub.restartedWhileAwaiting)
                  "g1" "f3" (app Stub.restartedWhileAwaiting)
                = Some AnalysisInProgress) by reflexivity.
    assert (M : snd (makeManualMove "g1" "f3" (app Stub.restartedWhileAwaiting)) = true)
      by reflexivity.
    repeat split; try reflexivity.
    unfold failsWithFirstError. cbv zeta. rewrite E, M. intros (H & _). discriminate.
  - assert (E : firstApplicableError
                  (requestOutstanding (step Stub.afterOpening (SquareClick "g8")))
                  "g8" "g8" (app (step Stub.afterOpening (SquareClick "g8")))
                = Some IllegalMove) by reflexivity.
    assert (M : errorMessage
                  (onSquareClick "g8" (app (step Stub.afterOpening (SquareClick "g8"))))
                = None) by reflexivity.
    repeat split; try reflexivity.
    unfold clickFailsWithFirstError. cbv zeta. rewrite E, M. intros (H & _). discriminate.
Qed.

(** The amended C5 on a run: after the oracle's Nf3 Black, the manual
    side, tries g8-h6; the attempt fails with IllegalMove and history is
    unchanged. *)
Lemma manual_move_first_error_witness :
  let s := app Stub.afterOpening in
  firstApplicableError (isAnalyzing s) "g8" "h6" s = Some IllegalMove /\
  failsWithFirstError (isAnalyzing s) "g8" "h6" s.
Proof.
  split; [ reflexivity | ].
  refine (proj1 (proj2 (@manual_move_first_error Stub.engine "g8" "h6"
                          (app Stub.afterOpening) _ _ _))).
  - reflexivity.
  - reflexivity.
  - intros m Hin Hto. vm_compute in Hin. destruct Hin as [<-|[]]. discriminate.
Defined.

(** C6, counterexample: a new game started while the request of the first
    one is in flight issues a second request; two are outstanding. *)
Lemma two_requests_in_flight :
  inflight (run [StartNewGame W; StartNewGame W]) = [""; ""] /\
  ~ atMostOneRequest (run [StartNewGame W; StartNewGame W]).
Proof.
  split; [ reflexivity | ].
  unfold atMostOneRequest. vm_compute. intros H.
  repeat match goal with H : le _ _ |- _ => inversion H; clear H end.
Qed.

(** The amended C6 on a run without such a restart. *)
Lemma single_request_witness :
  let events := [StartNewGame W; OracleSettles 0 (Stub.ok "Nf3"); Drop "g8" "f6"] in
  restartsOnlyWhenIdle mount events = true /\
  (List.length (inflight (run events)) <= 1)%nat.
Proof.
  split; [ reflexivity | ].
  refine (proj1 (@single_request_unless_restarted Stub.engine _ _)).
  reflexivity.
Defined.

(** C7, at the failing input: after the oracle's first move the cursor is
    0 and the board shows the position after it.  One step forward and one
    step back stay within [0, 1] and restore the cursor, but the board now
    shows the initial position. *)
Theorem navigation_round_trip_changes_display :
  let x := Stub.afterOpening in
  let y := step (step x (Navigate Forward)) (Navigate Back) in
  positions (app x) = [""; "Nf3 "] /\
  currentMoveIndex (app x) = 0 /\ currentPosition (app x) = Some "Nf3 " /\
  currentMoveIndex (app (step x (Navigate Forward))) = 1 /\
  currentMoveIndex (app y) = 0 /\ currentPosition (app y) = Some "" /\
  positions (app y) = positions (app x).
Proof. vm_compute. repeat split. Qed.

(** C8, counterexample: the oracle answers the request for White's first
    move with Nf6, which is no move of White in the initial position.  The
    error is reported and history is unchanged, but the session is not
    idle: a new request for the same position is in flight and
    [isAnalyzing] is set again. *)
Lemma illegal_suggestion_is_retried :
  let y := step Stub.awaitingOpening (OracleSettles 0 (Stub.ok "Nf6")) in
  moveText (loadFen (fen "")) "Nf6" = MoveThrows /\
  errorMessage (app y) = Some "Error calculating move" /\
  isAnalyzing (app y) = true /\ inflight y = [""] /\
  ~ backToIdle y.
Proof.
  repeat split; try reflexivity.
  intros (H & _). vm_compute in H. discriminate.
Qed.

(** The amended C8 on that run. *)
Lemma illegal_suggestion_witness :
  let x := Stub.awaitingOpening in
  let y := step x (OracleSettles 0 (Stub.ok "Nf6")) in
  positions (app y) = positions (app x) /\ moveHistory (app y) = moveHistory (app x) /\
  game (app y) = game (app x) /\ isAnalyzing (app y) = true.
Proof.
  destruct (@illegal_suggestion_reported_and_retried Stub.engine
              Stub.awaitingOpening 0 "" (Stub.ok "Nf6") "Nf6")
    as (_ & Hp & Hm & Hg & Ha & _).
  - reflexivity.
  - reflexivity.
  - intros newGame m. vm_compute. discriminate.
  - repeat split; assumption.
Defined.

(** C9, counterexample: after the oracle's first move, change-side leaves
    the two positions, the move and the cursor where they were. *)
Lemma change_side_keeps_history :
  let y := step Stub.afterOpening ChangeColor in
  positions (app y) = [""; "Nf3 "] /\ moveHistory (app y) = ["Nf3"] /\
  currentMoveIndex (app y) = 0 /\ ~ sessionReplaced y.
Proof.
  repeat split; try reflexivity.
  intros (H & _). vm_compute in H. discriminate.
Qed.

(** * More of the component: what is rendered and when the oracle is asked *)

Section RenderedFacts.

Context {E : RulesEngine}.

(** The effect leaves the selection, the last move and the error alone. *)
Lemma commit_selection (prev next : AppState) (q : list Chess) :
  let s := app (commit prev next q) in
  selectedSquare s = selectedSquare next /\ possibleMoves s = possibleMoves next /\
  lastMove s = lastMove next.
Proof.
  rewrite commit_spec.
  destruct (depsChanged prev next); [ destruct (autoMoveGuard next) | ];
    cbn; auto.
Qed.

(** A handler that stored a new game changed a dependency. *)
Lemma newGame_deps (s s' : AppState) :
  gameRef s' = freshRef s -> depsChanged s s' = true.
Proof.
  intros R. unfold depsChanged. rewrite R. unfold freshRef.
  destruct (Nat.eqb_spec (gameRef s) (S (Nat.max (gameRef s) (moveHistoryRef s))));
    [ lia | reflexivity ].
Qed.

Lemma commit_messageCurrent (prev next : AppState) (q : list Chess) :
  depsChanged prev next = true \/
  (messageCurrent prev /\ game next = game prev /\
   gameEndMessage next = gameEndMessage prev) ->
  messageCurrent (app (commit prev next q)).
Proof.
  unfold messageCurrent. rewrite commit_spec.
  destruct (depsChanged prev next) eqn:D.
  - intros _. destruct (autoMoveGuard next) eqn:G; cbn.
    + apply autoMoveGuard_true in G as (_ & -> & _). reflexivity.
    + reflexivity.
  - intros [H|(M & Hg & Hm)]; [ discriminate | ]. cbn. now rewrite Hm, Hg.
Qed.

Lemma step_messageCurrent (x : Session) (e : Event) :
  messageCurrent (app x) -> messageCurrent (app (step x e)).
Proof.
  intros M. destruct e as [c| |d|from to|square|i h]; cbn [step].
  - apply commit_messageCurrent. left. apply startNewGame_deps.
  - apply commit_messageCurrent. right. auto.
  - apply commit_messageCurrent. right.
    destruct (navigateMove_history d (app x)) as (_ & _ & Hg & _).
    repeat split; auto. unfold navigateMove. now destruct (negb _).
  - apply commit_messageCurrent. unfold onDrop.
    destruct (makeManualMove_cases from to (app x)) as [[_ F]|(g' & m & _ & _ & ->)].
    + right. destruct F as (Hg & _ & _ & _ & _ & _ & _ & _ & _ & _ & Hm). auto.
    + left. now apply newGame_deps.
  - apply commit_messageCurrent.
    destruct (onSquareClick_cases square (app x)) as [F|(sel & g' & m & _ & _ & ->)].
    + right. destruct F as (Hg & _ & _ & _ & _ & _ & _ & _ & _ & _ & Hm). auto.
    + left. now apply newGame_deps.
  - destruct (nth_error (inflight x) i) as [g|]; [ | exact M ].
    apply commit_messageCurrent.
    destruct (resumeBestMove_cases g (getBestMoveOnline h) (app x))
      as [(g' & m & _ & ->)|(_ & ->)].
    + left. now apply newGame_deps.
    + right. auto.
Qed.

Lemma run_messageCurrent (events : list Event) : messageCurrent (app (run events)).
Proof.
  induction events as [|e events IH] using rev_ind.
  - unfold run; cbn [fold_left]. rewrite mount_spec. reflexivity.
  - rewrite run_snoc. now apply step_messageCurrent.
Qed.

(** X1: in every run the end-of-game message is that of the live game: it
    is set, with the message computed from the live game, exactly when the
    live game is over. *)
Theorem gameEndMessage_follows_live_game (events : list Event) :
  let s := app (run events) in
  gameEndMessage s =
    if isGameOver (game s) then Some (endMessage (game s)) else None.
Proof. exact (run_messageCurrent events). Qed.

(** Under the guarantees of chess.js only two of the six messages of the
    effect can arise. *)
Lemma endMessage_contract (g : Chess) :
  endOfGameContract g -> isGameOver g = true ->
  endMessage g =
    if isCheckmate g then
      match turn g with
      | W => "Checkmate! Black wins! 🏆"
      | B => "Checkmate! White wins! 🏆"
      end
    else "It's a draw! 🤝".
Proof.
  intros (Ho & Hs & _) O. unfold endMessage.
  destruct (isCheckmate g); [ reflexivity | ].
  rewrite O in Ho. cbn in Ho.
  destruct (isDraw g); [ reflexivity | ].
  destruct (isStalemate g); [ now specialize (Hs eq_refl) | discriminate ].
Qed.

(** X2: when chess.js keeps its guarantees on the live game, the board
    shows a game-over banner exactly when the live game is over: at
    checkmate it names as winner the side that is not to move, and every
    other end is "It's a draw!" (the messages for stalemate, repetition and
    insufficient material are never shown). *)
Theorem game_over_banner (events : list Event) :
  endOfGameContract (game (app (run events))) ->
  let s := app (run events) in
  gameEndBanner s =
    if isGameOver (game s) then
      Some (if isCheckmate (game s) then
              match turn (game s) with
              | W => "Checkmate! Black wins! 🏆"
              | B => "Checkmate! White wins! 🏆"
              end
            else "It's a draw! 🤝")
    else None.
Proof.
  intros C s. unfold gameEndBanner, banner. subst s.
  rewrite (run_messageCurrent events). set (s := app (run events)) in *.
  destruct (isGameOver (game s)) eqn:O; [ | reflexivity ].
  rewrite (endMessage_contract C O).
  destruct (isCheckmate (game s)); [ destruct (turn (game s)) | ]; reflexivity.
Qed.

(** X3: the status line is never empty, whatever the state; and in every
    run, under the guarantees of chess.js, it is the game-over message
    when the live game is over, and otherwise "Check!" or the side to
    move. *)
Theorem status_line (isCheck : Chess -> bool) :
  (forall s : AppState, getGameStatus isCheck s <> "") /\
  (forall events : list Event,
      endOfGameContract (game (app (run events))) ->
      let s := app (run events) in
      getGameStatus isCheck s =
        if isGameOver (game s) then
          if isCheckmate (game s) then
            match turn (game s) with
            | W => "Checkmate! Black wins! 🏆"
            | B => "Checkmate! White wins! 🏆"
            end
          else "It's a draw! 🤝"
        else if isCheck (game s) then "Check!"
        else match turn (game s) with
             | W => "White to move"
             | B => "Black to move"
             end).
Proof.
  split.
  - intros s. unfold getGameStatus.
    assert (L : (if isCheck (game s) then "Check!"
                 else match turn (game s) with
                      | W => "White to move"
                      | B => "Black to move"
                      end) <> "")
      by (destruct (isCheck (game s)), (turn (game s)); discriminate).
    destruct (gameEndMessage s) as [message|]; [ | exact L ].
    destruct (truthy message) eqn:T; [ | exact L ].
    intros ->. discriminate.
  - intros events C s. unfold getGameStatus. subst s.
    rewrite (run_messageCurrent events). set (s := app (run events)) in *.
    destruct (isGameOver (game s)) eqn:O; [ | reflexivity ].
    rewrite (endMessage_contract C O).
    destruct (isCheckmate (game s)); [ destruct (turn (game s)) | ]; reflexivity.
Qed.

(** ** The selection *)

Lemma isValidManualMove_frame_ok (s s' : AppState) :
  frame s s' -> isValidManualMove s = (s, true) -> isValidManualMove s' = (s', true).
Proof.
  intros (Hg & _ & _ & _ & _ & _ & _ & Hp & Ha & _) V.
  apply isValidManualMove_true in V as V'. destruct V' as (_ & A & O & T).
  revert V. unfold isValidManualMove, manualColor. rewrite Hp, Ha, Hg, A, O.
  destruct (playerColor s) as [[|]|]; try discriminate;
    destruct (negb _); try discriminate; reflexivity.
Qed.

(** What [makeManualMove] does to the selection: nothing, or it clears it. *)
Lemma makeManualMove_selection (from to : Square) (s : AppState) :
  let s' := fst (makeManualMove from to s) in
  (selectedSquare s' = selectedSquare s /\ possibleMoves s' = possibleMoves s /\
   game s' = game s) \/
  (selectedSquare s' = None /\ possibleMoves s' = []).
Proof.
  unfold makeManualMove.
  destruct (isValidManualMove s) as [s1 [|]] eqn:V; cbn [negb].
  - apply isValidManualMove_true in V as (-> & _).
    unfold validateManualMove.
    destruct (negb (truthy from) || negb (truthy to)); [ left; cbn; auto | ].
    destruct (manualColor s); [ | left; cbn; auto ].
    destruct (get (game s) from) as [piece|]; [ | left; cbn; auto ].
    destruct (negb (Color_eqb (color piece) c)); [ left; cbn; auto | ].
    destruct (negb (existsb _ _)); [ left; cbn; auto | ].
    destruct (moveObject (loadFen (fen (game s))) from to Queen);
      cbn; auto.
  - apply isValidManualMove_false in V as [msg ->]. left. cbn. auto.
Qed.

(** Selecting a square of an eligible state shows its destinations. *)
Lemma selectSquare_selection (square : Square) (s : AppState) :
  isValidManualMove s = (s, true) ->
  selectedSquare (selectSquare square s) = Some square /\
  possibleMoves (selectSquare square s) = map mto (moves (game s) square) /\
  game (selectSquare square s) = game s.
Proof.
  intros V. unfold selectSquare, getMoveOptions.
  assert (F : frame s (s |> setSelectedSquare (Some square)))
    by (unfold frame; cbn; repeat split; reflexivity).
  rewrite (isValidManualMove_frame_ok F V). cbn. auto.
Qed.

Lemma onSquareClick_selection (square : Square) (s : AppState) :
  selectionAgrees s -> selectionAgrees (onSquareClick square s).
Proof.
  intros A. unfold onSquareClick.
  destruct (isValidManualMove s) as [s1 [|]] eqn:V; cbn [negb].
  - apply isValidManualMove_true in V as V'. destruct V' as (-> & _).
    destruct (selectedSquare s) as [selected|] eqn:Sel.
    + pose proof (makeManualMove_selection selected square s) as M.
      pose proof (makeManualMove_cases selected square s) as K.
      destruct (makeManualMove selected square s) as [s2 [|]]; cbn [fst snd] in *.
      * destruct K as [[K _]|(g' & m & _ & _ & K)]; [ discriminate | ].
        injection K as ->. reflexivity.
      * destruct K as [[_ F]|(g' & m & _ & _ & K)]; [ | discriminate ].
        destruct (ownPieceAt square s).
        -- destruct (selectSquare_selection square (isValidManualMove_frame_ok F V))
             as (Hs & Hp & Hg).
           unfold selectionAgrees. rewrite Hs, Hp, Hg. reflexivity.
        -- reflexivity.
    + destruct (ownPieceAt square s).
      * destruct (selectSquare_selection square V) as (Hs & Hp & Hg).
        unfold selectionAgrees. rewrite Hs, Hp, Hg. reflexivity.
      * exact A.
  - reflexivity.
Qed.

Lemma step_selectionAgrees (x : Session) (e : Event) :
  selectionAgrees (app x) -> selectionAgrees (app (step x e)).
Proof.
  intros A.
  assert (K : forall next q, selectionAgrees next ->
                             selectionAgrees (app (commit (app x) next q))).
  { intros next q N. unfold selectionAgrees.
    destruct (commit_selection (app x) next q) as (-> & -> & _).
    now destruct (commit_session (app x) next q) as (-> & _). }
  destruct e as [c| |d|from to|square|i h]; cbn [step].
  - apply K. reflexivity.
  - apply K. exact A.
  - apply K. unfold navigateMove. now destruct (negb _).
  - apply K. unfold onDrop, selectionAgrees.
    destruct (makeManualMove_selection from to (app x)) as [(-> & -> & ->)|(-> & ->)];
      [ exact A | reflexivity ].
  - apply K. now apply onSquareClick_selection.
  - destruct (nth_error (inflight x) i) as [g|]; [ | exact A ].
    apply K.
    destruct (resumeBestMove_cases g (getBestMoveOnline h) (app x))
      as [(g' & m & _ & ->)|(_ & ->)]; reflexivity.
Qed.

Lemma run_selectionAgrees (events : list Event) : selectionAgrees (app (run events)).
Proof.
  induction events as [|e events IH] using rev_ind.
  - unfold run; cbn [fold_left]. rewrite mount_spec. reflexivity.
  - rewrite run_snoc. now apply step_selectionAgrees.
Qed.

(** X4: in every run the squares drawn as destinations are exactly the
    squares the engine lists as destinations, in the live game, of the
    square that is selected; with no square selected none is drawn. *)
Theorem destinations_shown_are_legal (events : list Event) (square : Square) :
  let s := app (run events) in
  customSquareStyles s square = Some DestinationStyle <->
  exists selected,
    selectedSquare s = Some selected /\
    existsb (fun m => (mto m =? square)%string) (moves (game s) selected) = true.
Proof.
  cbn zeta. pose proof (run_selectionAgrees events) as A.
  set (s := app (run events)) in *.
  unfold customSquareStyles, selectionAgrees in *.
  assert (M : forall l, existsb (String.eqb square) (map mto l) =
                        existsb (fun m => (mto m =? square)%string) l).
  { induction l as [|m l IH]; [ reflexivity | ].
    cbn. now rewrite IH, (String.eqb_sym square). }
  destruct (selectedSquare s) as [selected|].
  - rewrite A, M. split.
    + destruct (existsb _ _) eqn:X.
      * eauto.
      * destruct (truthy selected && _)%bool; discriminate.
    + intros (sel & [= <-] & ->). reflexivity.
  - rewrite A. cbn. split; [ discriminate | intros (sel & D & _); discriminate ].
Qed.

(** ** When the oracle is asked *)

Lemma removeNth_In {A : Type} (i : nat) (l : list A) (a : A) :
  In a (removeNth i l) -> In a l.
Proof.
  revert i. induction l as [|b l IH]; intros i; [ now destruct i | ].
  destruct i as [|i]; cbn; [ auto | ]. intros [->|H]; eauto.
Qed.

(** A request a step adds is for the game that is live after the step,
    with the oracle side to move in it and the game not over. *)
Lemma step_new_request (x : Session) (e : Event) (g : Chess) :
  In g (inflight (step x e)) ->
  In g (inflight x) \/
  (g = game (app (step x e)) /\ autoTurn (app (step x e)) = true /\
   isGameOver g = false /\ isAnalyzing (app (step x e)) = true).
Proof.
  assert (K : forall next q,
             (forall a, In a q -> In a (inflight x)) ->
             In g (inflight (commit (app x) next q)) ->
             In g (inflight x) \/
             (g = game (app (commit (app x) next q)) /\
              autoTurn (app (commit (app x) next q)) = true /\
              isGameOver g = false /\
              isAnalyzing (app (commit (app x) next q)) = true)).
  { intros next q Q. rewrite commit_spec.
    destruct (depsChanged (app x) next); [ destruct (autoMoveGuard next) eqn:G | ];
      cbn [app inflight]; auto.
    intros H. apply in_app_or in H as [H|[<-|[]]]; [ auto | ].
    right. apply autoMoveGuard_true in G as (T & O & _). cbn. auto. }
  destruct e as [c| |d|from to|square|i h]; cbn [step]; try (apply K; auto).
  destruct (nth_error (inflight x) i); [ | auto ].
  apply K. intros a. apply removeNth_In.
Qed.

(** X5: the oracle is never asked about a finished game: in every run,
    every request in flight was issued for a position in which the game
    is not over; and a request is only issued by a step after which the
    oracle side is to move in the live game. *)
Theorem oracle_only_asked_when_to_move (events : list Event) :
  (forall g, In g (inflight (run events)) -> isGameOver g = false) /\
  (forall e g,
      In g (inflight (step (run events) e)) ->
      In g (inflight (run events)) \/
      (g = game (app (step (run events) e)) /\
       autoTurn (app (step (run events) e)) = true)).
Proof.
  split.
  - induction events as [|e events IH] using rev_ind; intros g H.
    + unfold run in H; cbn [fold_left] in H. rewrite mount_spec in H. destruct H.
    + rewrite run_snoc in H.
      apply step_new_request in H as [H|(_ & _ & O & _)]; auto.
  - intros e g H. apply step_new_request in H as [?|(? & ? & _)]; auto.
Qed.

(** After a handler stored a new game with [isAnalyzing] clear, the effect
    asks the oracle exactly when its side is to move in a game that is not
    over. *)
Lemma commit_new_game (prev next : AppState) (q : list Chess) :
  gameRef next = freshRef prev -> isAnalyzing next = false ->
  let ask := autoTurn next && negb (isGameOver (game next)) in
  isAnalyzing (app (commit prev next q)) = ask /\
  inflight (commit prev next q) = q ++ (if ask then [game next] else []).
Proof.
  intros R A. rewrite commit_spec, (newGame_deps next R).
  unfold autoMoveGuard. rewrite A, andb_true_r.
  destruct (autoTurn next && negb (isGameOver (game next))); cbn;
    rewrite ?app_nil_r; auto.
Qed.

(** X6: start-new-game always asks the oracle for the first move when its
    colour is to move in the initial position, and only then; requests
    already in flight stay in flight. *)
Theorem new_game_hand_over (x : Session) (c : Color) :
  let y := step x (StartNewGame c) in
  let ask := Color_eqb (turn newChess) c && negb (isGameOver newChess) in
  isAnalyzing (app y) = ask /\
  inflight y = inflight x ++ (if ask then [newChess] else []).
Proof.
  exact (@commit_new_game (app x) (startNewGame c (app x)) (inflight x) eq_refl eq_refl).
Qed.

(** X7: after an accepted manual move the oracle is asked for a reply on
    the new position exactly when its side is to move there and the game
    is not over; otherwise the session stays idle. *)
Theorem manual_move_hand_over (x : Session) (from to : Square) :
  snd (onDrop from to (app x)) = true ->
  let s' := fst (onDrop from to (app x)) in
  let y := step x (Drop from to) in
  let ask := autoTurn s' && negb (isGameOver (game s')) in
  game (app y) = game s' /\
  isAnalyzing (app y) = ask /\
  inflight y = inflight x ++ (if ask then [game s'] else []).
Proof.
  intros Ok. cbn [step]. unfold onDrop in *.
  destruct (makeManualMove_cases from to (app x)) as [[Hf _]|(g' & m & _ & V & R)];
    [ congruence | ].
  apply isValidManualMove_true in V as (_ & A & _).
  rewrite R. cbn [fst]. cbn zeta.
  split.
  - now destruct (commit_session (app x) (manualMoveApplied g' m (app x)) (inflight x)).
  - exact (@commit_new_game (app x) (manualMoveApplied g' m (app x)) (inflight x)
             eq_refl A).
Qed.

(** X8: navigation only moves the cursor and the displayed position: it
    touches neither live game, history, move log, colour, selection, error
    nor analysis flag, and it never makes the oracle be asked. *)
Theorem navigation_is_display_only (x : Session) (d : Direction) :
  let y := step x (Navigate d) in
  inflight y = inflight x /\
  game (app y) = game (app x) /\ positions (app y) = positions (app x) /\
  moveHistory (app y) = moveHistory (app x) /\
  playerColor (app y) = playerColor (app x) /\
  isAnalyzing (app y) = isAnalyzing (app x) /\
  selectedSquare (app y) = selectedSquare (app x) /\
  possibleMoves (app y) = possibleMoves (app x) /\
  errorMessage (app y) = errorMessage (app x) /\
  gameEndMessage (app y) = gameEndMessage (app x).
Proof.
  cbn [step]. destruct (navigateMove_history d (app x)) as (_ & _ & _ & _ & _ & D).
  unfold commit. rewrite D. cbn [app inflight]. cbn zeta.
  unfold navigateMove. destruct (negb _); cbn; repeat split.
Qed.

(** X9: history is append-only between new games: start-new-game resets
    history to the initial position and empties the move log; every other
    event keeps both as prefixes and appends at most one entry, to both or
    to neither. *)
Theorem history_append_only (x : Session) (e : Event) :
  let s := app x in
  let s' := app (step x e) in
  if isStart e then positions s' = [fen newChess] /\ moveHistory s' = []
  else
    (positions s' = positions s /\ moveHistory s' = moveHistory s) \/
    exists position notation,
      positions s' = positions s ++ [position] /\
      moveHistory s' = moveHistory s ++ [notation].
Proof.
  assert (K : forall next q,
             ((positions next = positions (app x) /\
               moveHistory next = moveHistory (app x)) \/
              exists position notation,
                positions next = positions (app x) ++ [position] /\
                moveHistory next = moveHistory (app x) ++ [notation]) ->
             (positions (app (commit (app x) next q)) = positions (app x) /\
              moveHistory (app (commit (app x) next q)) = moveHistory (app x)) \/
             exists position notation,
               positions (app (commit (app x) next q)) = positions (app x) ++ [position] /\
               moveHistory (app (commit (app x) next q))
                 = moveHistory (app x) ++ [notation]).
  { intros next q. now destruct (commit_session (app x) next q) as (_ & -> & -> & _). }
  destruct e as [c| |d|from to|square|i h]; cbn [isStart step]; cbn zeta.
  - destruct (step_startNewGame x c) as (_ & Hp & Hm & _). auto.
  - apply K. left. auto.
  - apply K. left. destruct (navigateMove_history d (app x)) as (-> & -> & _). auto.
  - apply K. unfold onDrop.
    destruct (makeManualMove_cases from to (app x)) as [[_ F]|(g' & m & _ & _ & ->)].
    + left. destruct F as (_ & _ & -> & _ & -> & _). auto.
    + right. exists (fen g'), (san m). auto.
  - apply K.
    destruct (onSquareClick_cases square (app x)) as [F|(sel & g' & m & _ & _ & ->)].
    + left. destruct F as (_ & _ & -> & _ & -> & _). auto.
    + right. exists (fen g'), (san m). auto.
  - destruct (nth_error (inflight x) i) as [g|]; [ | auto ].
    apply K.
    destruct (resumeBestMove_cases g (getBestMoveOnline h) (app x))
      as [(g' & m & _ & ->)|(_ & ->)].
    + right. exists (fen g'), (san m). auto.
    + left. auto.
Qed.

(** ** The board and the cursor *)

Lemma step_navigate (x : Session) (d : Direction) :
  step x (Navigate d) = {| app := navigateMove d (app x); inflight := inflight x |}.
Proof.
  cbn [step]. destruct (navigateMove_history d (app x)) as (_ & _ & _ & _ & _ & D).
  unfold commit. now rewrite D.
Qed.

Lemma lookupZ_in_range {A : Type} (l : list A) (i : Z) :
  0 <= i < Z.of_nat (List.length l) ->
  exists a, lookupZ l i = Some a /\ In a l.
Proof.
  intros R. unfold lookupZ.
  destruct (Z.ltb_spec i 0); [ lia | ].
  destruct (nth_error l (Z.to_nat i)) as [a|] eqn:N.
  - exists a. split; [ reflexivity | ]. eapply nth_error_In; eauto.
  - apply nth_error_None in N. lia.
Qed.

Lemma lookupZ_last {A : Type} (l : list A) (d : A) :
  l <> [] -> lookupZ l (Z.of_nat (List.length l) - 1) = Some (last l d).
Proof.
  intros N. destruct (exists_last N) as (l' & a & ->).
  rewrite last_last, length_app. cbn [List.length]. unfold lookupZ.
  destruct (Z.ltb_spec (Z.of_nat (List.length l' + 1) - 1) 0); [ lia | ].
  replace (Z.to_nat (Z.of_nat (List.length l' + 1) - 1)) with (List.length l') by lia.
  rewrite nth_error_app2 by lia. now rewrite Nat.sub_diag.
Qed.

Lemma displayAgrees_transfer (s s' : AppState) :
  positions s' = positions s -> currentMoveIndex s' = currentMoveIndex s ->
  currentPosition s' = currentPosition s -> displayAgrees s -> displayAgrees s'.
Proof. unfold displayAgrees. intros -> -> ->. auto. Qed.

Lemma displayAgrees_appended (position : string) (s s' : AppState) :
  positions s' = positions s ++ [position] -> currentPosition s' = Some position ->
  displayAgrees s'.
Proof. unfold displayAgrees. intros -> ->. right. now rewrite last_last. Qed.

Lemma navigateMove_displayAgrees (d : Direction) (s : AppState) :
  inProgress s -> displayAgrees s -> displayAgrees (navigateMove d s).
Proof.
  intros (Hl & Hc & _) D. unfold navigateMove.
  match goal with |- context [negb (?a =? ?b)] => destruct (Z.eqb_spec a b) as [e|e] end;
    cbn [negb]; [ exact D | ].
  left. cbn. split; [ destruct d; lia | reflexivity ].
Qed.

Lemma commit_displayAgrees (prev next : AppState) (q : list Chess) :
  displayAgrees next -> displayAgrees (app (commit prev next q)).
Proof.
  destruct (commit_session prev next q) as (_ & Hp & _ & Hc & Hd & _).
  now apply displayAgrees_transfer.
Qed.

Lemma step_displayAgrees (x : Session) (e : Event) :
  inProgress (app x) -> displayAgrees (app x) -> displayAgrees (app (step x e)).
Proof.
  intros I D. destruct e as [c| |d|from to|square|i h]; cbn [step].
  - apply commit_displayAgrees. right. reflexivity.
  - apply commit_displayAgrees. exact D.
  - apply commit_displayAgrees. now apply navigateMove_displayAgrees.
  - apply commit_displayAgrees. unfold onDrop.
    destruct (makeManualMove_cases from to (app x)) as [[_ F]|(g' & m & _ & _ & ->)].
    + destruct F as (_ & _ & _ & _ & Hp & Hc & Hd & _).
      now apply displayAgrees_transfer with (s := app x).
    + now apply displayAgrees_appended with (position := fen g') (s := app x).
  - apply commit_displayAgrees.
    destruct (onSquareClick_cases square (app x)) as [F|(sel & g' & m & _ & _ & ->)].
    + destruct F as (_ & _ & _ & _ & Hp & Hc & Hd & _).
      now apply displayAgrees_transfer with (s := app x).
    + now apply displayAgrees_appended with (position := fen g') (s := app x).
  - destruct (nth_error (inflight x) i) as [g|]; [ | exact D ].
    apply commit_displayAgrees.
    destruct (resumeBestMove_cases g (getBestMoveOnline h) (app x))
      as [(g' & m & _ & ->)|(_ & ->)].
    + now apply displayAgrees_appended with (position := fen g') (s := app x).
    + now apply displayAgrees_transfer with (s := app x).
Qed.

Lemma run_displayAgrees (events : list Event) :
  started events = true -> displayAgrees (app (run events)).
Proof.
  induction events as [|e events IH] using rev_ind; [ discriminate | ].
  rewrite started_snoc, run_snoc. intros S.
  pose proof (run_invariant events) as I.
  destruct (started events).
  - apply step_displayAgrees; [ exact I | exact (IH eq_refl) ].
  - cbn [orb] in S. destruct e as [c| | | | | ]; try discriminate.
    cbn [step]. apply commit_displayAgrees. right. reflexivity.
Qed.

Lemma inProgress_nonempty (s : AppState) : inProgress s -> positions s <> [].
Proof. intros (Hl & _) N. rewrite N in Hl. discriminate. Qed.

(** X10: once a game is started the board always shows a position of the
    history, whatever was navigated, played or answered late by the
    oracle. *)
Theorem board_shows_history_position (events : list Event) :
  started events = true ->
  exists position,
    currentPosition (app (run events)) = Some position /\
    In position (positions (app (run events))).
Proof.
  intros S. pose proof (run_displayAgrees events S) as D.
  pose proof (run_invariant events) as I. rewrite S in I.
  pose proof (inProgress_nonempty I) as N. destruct I as (_ & (_ & Hc) & _).
  destruct D as [(H0 & D)|D]; rewrite D.
  - apply lookupZ_in_range. lia.
  - eexists. split; [ reflexivity | ].
    destruct (exists_last N) as (l & a & ->). rewrite last_last.
    apply in_or_app. right. now left.
Qed.

(** Forward clicks, as many as wanted. *)
Lemma forward_clicks (n : nat) (x : Session) :
  inProgress (app x) -> displayAgrees (app x) ->
  let y := fold_left step (repeat (Navigate Forward) n) x in
  inProgress (app y) /\ displayAgrees (app y) /\
  positions (app y) = positions (app x) /\ game (app y) = game (app x) /\
  inflight y = inflight x /\
  currentMoveIndex (app y) =
    Z.min (currentMoveIndex (app x) + Z.of_nat n)
          (Z.max (currentMoveIndex (app x))
                 (Z.of_nat (List.length (positions (app x))) - 1)).
Proof.
  revert x. induction n as [|n IH]; intros x I D.
  - cbn [repeat fold_left]. cbn zeta.
    split; [ exact I | ]. split; [ exact D | ]. repeat split.
    destruct I as (_ & Hc & _). lia.
  - cbn [repeat fold_left]. rewrite step_navigate.
    set (x1 := {| app := navigateMove Forward (app x); inflight := inflight x |}).
    assert (I1 : inProgress (app x1)) by now apply navigateMove_inProgress.
    assert (D1 : displayAgrees (app x1)) by now apply navigateMove_displayAgrees.
    destruct (IH x1 I1 D1) as (I2 & D2 & Hp & Hg & Hq & Hc).
    destruct (navigateMove_history Forward (app x)) as (Np & _ & Ng & _).
    pose proof (navigateMove_cursor Forward (app x)) as Nc.
    subst x1. cbn [app inflight] in *. cbn zeta.
    split; [ exact I2 | ]. split; [ exact D2 | ].
    split; [ congruence | ]. split; [ congruence | ]. split; [ exact Hq | ].
    rewrite Hc, Nc, Np. destruct I as (_ & Hb & _). lia.
Qed.

(** X11: from any state of a started game, pressing Forward as many times
    as history has positions brings the cursor to the last index and the
    board to the live position; neither the game nor the history nor the
    requests in flight change on the way. *)
Theorem forward_reaches_live_position (events : list Event) :
  started events = true ->
  let s := app (run events) in
  let y := run (events ++ repeat (Navigate Forward) (List.length (positions s))) in
  currentMoveIndex (app y) = Z.of_nat (List.length (positions s)) - 1 /\
  currentPosition (app y) = Some (fen (game s)) /\
  game (app y) = game s /\ positions (app y) = positions s /\
  inflight y = inflight (run events).
Proof.
  intros S s y.
  pose proof (run_invariant events) as I. rewrite S in I.
  pose proof (run_displayAgrees events S) as D.
  assert (Y : y = fold_left step (repeat (Navigate Forward) (List.length (positions s)))
                            (run events))
    by (unfold y, run; now rewrite fold_left_app).
  destruct (forward_clicks (List.length (positions s)) (run events) I D)
    as (I2 & D2 & Hp & Hg & Hq & Hc).
  rewrite <- Y in *. fold s in Hp, Hg, Hc.
  assert (C : currentMoveIndex (app y) = Z.of_nat (List.length (positions s)) - 1).
  { rewrite Hc. destruct I as (_ & Hb & _). fold s in Hb. lia. }
  repeat split; auto.
  pose proof (inProgress_nonempty I2) as N. destruct I2 as (_ & _ & L).
  rewrite <- Hg, <- L.
  destruct D2 as [(_ & D2)|D2]; rewrite D2; [ | reflexivity ].
  rewrite C, <- Hp. now apply lookupZ_last.
Qed.

(** X12: in a started game a navigation button that is not disabled moves
    the cursor by exactly one, and the board then shows the position of
    history under the cursor. *)
Theorem enabled_navigation_moves_one (events : list Event) :
  started events = true ->
  let x := run events in
  let s := app x in
  (forwardDisabled s = false ->
   currentMoveIndex (app (step x (Navigate Forward))) = currentMoveIndex s + 1 /\
   exists position,
     currentPosition (app (step x (Navigate Forward))) = Some position /\
     lookupZ (positions s) (currentMoveIndex s + 1) = Some position) /\
  (backDisabled s = false ->
   currentMoveIndex (app (step x (Navigate Back))) = currentMoveIndex s - 1 /\
   exists position,
     currentPosition (app (step x (Navigate Back))) = Some position /\
     lookupZ (positions s) (currentMoveIndex s - 1) = Some position).
Proof.
  intros S x s.
  pose proof (run_invariant events) as I. rewrite S in I. fold x s in I.
  destruct I as (_ & (Hlo & Hhi) & _).
  unfold forwardDisabled, backDisabled. split; intros B; apply Z.leb_gt in B;
    rewrite step_navigate; cbn [app]; fold s; unfold navigateMove.
  - rewrite Z.min_l by lia.
    destruct (Z.eqb_spec (currentMoveIndex s + 1) (currentMoveIndex s)); [ lia | ].
    cbn. split; [ reflexivity | ].
    destruct (@lookupZ_in_range _ (positions s) (currentMoveIndex s + 1)) as (p & P & _);
      [ lia | eauto ].
  - rewrite Z.max_l by lia.
    destruct (Z.eqb_spec (currentMoveIndex s - 1) (currentMoveIndex s)); [ lia | ].
    cbn. split; [ reflexivity | ].
    destruct (@lookupZ_in_range _ (positions s) (currentMoveIndex s - 1)) as (p & P & _);
      [ lia | eauto ].
Qed.

(** ** What the user can do *)

Lemma isValidManualMove_hidden (s : AppState) (c : Color) :
  playerColor s = Some c -> noColourMessageHidden s ->
  noColourMessageHidden (fst (isValidManualMove s)).
Proof.
  unfold noColourMessageHidden, isValidManualMove, manualColor. intros -> Q.
  destruct (isAnalyzing s); [ cbn; discriminate | ].
  destruct (isGameOver (game s)); [ cbn; discriminate | ].
  destruct c; destruct (negb _); cbn; try discriminate; exact Q.
Qed.

Lemma makeManualMove_hidden (from to : Square) (s : AppState) (c : Color) :
  playerColor s = Some c -> noColourMessageHidden s ->
  noColourMessageHidden (fst (makeManualMove from to s)).
Proof.
  intros P Q. pose proof (isValidManualMove_hidden P Q) as Q1.
  unfold makeManualMove.
  destruct (isValidManualMove s) as [s1 [|]] eqn:V; cbn [negb fst] in *; [ | exact Q1 ].
  apply isValidManualMove_true in V as (-> & _).
  unfold validateManualMove, noColourMessageHidden in *.
  destruct (negb (truthy from) || negb (truthy to)); [ cbn; discriminate | ].
  destruct (manualColor s); [ | exact Q ].
  destruct (get (game s) from) as [piece|]; [ | cbn; discriminate ].
  destruct (negb (Color_eqb (color piece) c0)); [ cbn; discriminate | ].
  destruct (negb (existsb _ _)); [ cbn; discriminate | ].
  destruct (moveObject (loadFen (fen (game s))) from to Queen); cbn; discriminate.
Qed.

Lemma onSquareClick_hidden (square : Square) (s : AppState) (c : Color) :
  playerColor s = Some c -> noColourMessageHidden s ->
  noColourMessageHidden (onSquareClick square s).
Proof.
  intros P Q. pose proof (isValidManualMove_hidden P Q) as Q1.
  unfold onSquareClick.
  destruct (isValidManualMove s) as [s1 [|]] eqn:V; cbn [negb fst] in *; [ | exact Q1 ].
  apply isValidManualMove_true in V as (-> & _).
  assert (N : forall a, noColourMessageHidden (selectSquare square a)).
  { intros a. unfold noColourMessageHidden.
    destruct (selectSquare_message square a) as (-> & _). discriminate. }
  destruct (selectedSquare s) as [selected|].
  - pose proof (makeManualMove_hidden selected square P Q) as Q2.
    destruct (makeManualMove selected square s) as [s2 [|]]; cbn [fst] in *;
      [ exact Q2 | ].
    destruct (ownPieceAt square s); [ apply N | exact Q2 ].
  - destruct (ownPieceAt square s); [ apply N | exact Q ].
Qed.

Lemma resumeBestMove_hidden (g : Chess) (r : OracleResult) (s : AppState) :
  noColourMessageHidden s -> noColourMessageHidden (resumeBestMove g r s).
Proof.
  intros Q. unfold noColourMessageHidden, resumeBestMove.
  destruct (oracleBranch g r); cbn; try discriminate; exact Q.
Qed.

Lemma step_hidden (x : Session) (e : Event) :
  exposed (app x) e = true -> noColourMessageHidden (app x) ->
  noColourMessageHidden (app (step x e)).
Proof.
  intros X Q.
  assert (K : forall next q, noColourMessageHidden next ->
                             noColourMessageHidden (app (commit (app x) next q))).
  { intros next q N. unfold noColourMessageHidden.
    now destruct (commit_session (app x) next q) as (_ & _ & _ & _ & _ & _ & ->). }
  destruct e as [c| |d|from to|square|i h]; cbn [step].
  - apply K. exact Q.
  - apply K. exact Q.
  - apply K. unfold navigateMove. now destruct (negb _).
  - apply K. cbn [exposed] in X.
    destruct (playerColor (app x)) as [c|] eqn:P; [ | discriminate ].
    now apply makeManualMove_hidden with (c := c).
  - apply K. cbn [exposed] in X.
    destruct (playerColor (app x)) as [c|] eqn:P; [ | discriminate ].
    now apply onSquareClick_hidden with (c := c).
  - destruct (nth_error (inflight x) i) as [g|]; [ | exact Q ].
    apply K. now apply resumeBestMove_hidden.
Qed.

(** X13: in every run a user can produce (moves and navigation only while
    the game screen is shown, navigation only by a button that is not
    disabled), the message of the first check of [isValidManualMove],
    "Please select a color first", is never set: the board that takes the
    moves is rendered only once a colour is chosen. *)
Theorem no_colour_message_never_shown (events : list Event) :
  uiRun mount events = true ->
  errorMessage (app (run events)) <> Some "Please select a color first".
Proof.
  intros U. unfold run.
  assert (G : forall evs x, noColourMessageHidden (app x) -> uiRun x evs = true ->
                            noColourMessageHidden (app (fold_left step evs x))).
  { induction evs as [|e evs IH]; intros x Q R; [ exact Q | ].
    cbn [uiRun] in R. apply andb_prop in R as (X & R).
    cbn [fold_left]. apply IH; [ | exact R ]. now apply step_hidden. }
  apply G; [ | exact U ].
  rewrite mount_spec. unfold noColourMessageHidden. cbn. discriminate.
Qed.

End RenderedFacts.

(** ** The move table of the side panel *)

Lemma tableCell_nth (l : list string) (i : nat) : tableCell l i = nth i l "".
Proof.
  unfold tableCell. destruct (nth_error l i) as [m|] eqn:N.
  - rewrite (nth_error_nth _ _ _ N). now destruct m.
  - apply nth_error_None in N. now rewrite nth_overflow.
Qed.

Lemma flat_map_map {A B C : Type} (g : B -> list C) (h : A -> B) (l : list A) :
  flat_map g (map h l) = flat_map (fun a => g (h a)) l.
Proof. induction l as [|a l IH]; cbn; [ reflexivity | now rewrite IH ]. Qed.

(** Induction on a list, two elements at a time. *)
Lemma pair_induction {A : Type} (P : list A -> Prop) :
  P [] -> (forall a, P [a]) -> (forall a b l, P l -> P (a :: b :: l)) ->
  forall l, P l.
Proof.
  intros P0 P1 P2 l.
  assert (H : P l /\ forall a, P (a :: l)); [ | exact (proj1 H) ].
  induction l as [|b l [IH1 IH2]]; split; auto.
Qed.

Lemma moveTable_cells (l : list string) :
  flat_map (fun r => [snd (fst r); snd r]) (moveTable l) =
  flat_map (fun i => [nth (i * 2) l ""; nth (i * 2 + 1) l ""])
           (seq 0 (Nat.div2 (S (List.length l)))).
Proof.
  unfold moveTable. rewrite flat_map_map. apply flat_map_ext. intros i.
  cbn [fst snd]. now rewrite !tableCell_nth.
Qed.

(** X14: the move table has one row for every two moves, numbered from 1,
    and read row by row, White's cell before Black's, it gives back the
    move log, followed by one empty cell when the number of moves is odd. *)
Theorem move_table_reads_back (moveHistory : list string) :
  flat_map (fun r => [snd (fst r); snd r]) (moveTable moveHistory) =
    moveHistory ++ (if Nat.odd (List.length moveHistory) then [""] else []) /\
  map (fun r => fst (fst r)) (moveTable moveHistory) =
    seq 1 (Nat.div2 (S (List.length moveHistory))).
Proof.
  split.
  - rewrite moveTable_cells.
    induction moveHistory as [|a|a b l IH] using pair_induction;
      [ reflexivity | reflexivity | ].
    cbn [List.length].
    change (Nat.div2 (S (S (S (List.length l))))) with (S (Nat.div2 (S (List.length l)))).
    cbn [seq flat_map]. rewrite <- seq_shift, flat_map_map.
    rewrite (flat_map_ext _ (fun i => [nth (i * 2) l ""; nth (i * 2 + 1) l ""]))
      by (intros i; reflexivity).
    rewrite IH. reflexivity.
  - unfold moveTable. rewrite map_map. cbn [fst].
    rewrite <- seq_shift. apply map_ext. intros i. apply Nat.add_1_r.
Qed.

(** ** The request of the oracle *)

Lemma string_length_append (a b : string) :
  String.length (a ++ b) = (String.length a + String.length b)%nat.
Proof. induction a as [|c a IH]; cbn; [ reflexivity | now rewrite IH ]. Qed.

Lemma string_append_inv_head (p a b : string) :
  (p ++ a = p ++ b)%string -> a = b.
Proof. induction p as [|c p IH]; cbn; [ auto | intros [= H]; auto ]. Qed.

Lemma string_append_inv_tail (a b t : string) :
  (a ++ t = b ++ t)%string -> a = b.
Proof.
  revert b. induction a as [|c a IH]; intros [|d b] H.
  - reflexivity.
  - apply (f_equal String.length) in H. cbn in H.
    rewrite string_length_append in H. lia.
  - apply (f_equal String.length) in H. cbn in H.
    rewrite string_length_append in H. lia.
  - cbn in H. injection H as -> H. f_equal. now apply IH.
Qed.

Lemma list_ascii_append (a b : string) :
  list_ascii_of_string (a ++ b) = list_ascii_of_string a ++ list_ascii_of_string b.
Proof. induction a as [|c a IH]; cbn; [ reflexivity | now rewrite IH ]. Qed.

Lemma unreserved_not_percent (c : ascii) :
  unreserved c = true -> Ascii.eqb c "%" = false.
Proof.
  intros U. destruct (Ascii.eqb_spec c "%") as [->|]; [ | reflexivity ].
  vm_compute in U. discriminate.
Qed.

Lemma hexDigit_unreserved (n : nat) : unreserved (hexDigit n) = true.
Proof. do 16 (destruct n as [|n]; [ reflexivity | ]). now destruct n. Qed.

Lemma percentEncode_decoded (c : ascii) :
  ascii_of_nat (16 * hexValue (hexDigit (nat_of_ascii c / 16))
                + hexValue (hexDigit (nat_of_ascii c mod 16))) = c.
Proof. destruct c as [[] [] [] [] [] [] [] []]; reflexivity. Qed.

(** Decoding undoes the encoding. *)
Lemma percentDecode_encode (s : string) (fuel : nat) :
  (String.length s <= fuel)%nat -> percentDecode fuel (encodeURIComponent s) = s.
Proof.
  revert fuel. induction s as [|c s IH]; intros fuel L.
  - now destruct fuel.
  - destruct fuel as [|fuel]; [ cbn in L; lia | ].
    cbn [encodeURIComponent String.length] in *.
    destruct (unreserved c) eqn:U.
    + cbn [append percentDecode]. rewrite (unreserved_not_percent c U).
      rewrite IH by lia. reflexivity.
    + unfold percentEncode. cbn [append percentDecode].
      change (Ascii.eqb "%" "%") with true. cbv iota.
      rewrite percentEncode_decoded, IH by lia. reflexivity.
Qed.

(** X15: the URL of the request carries the position without loss and as
    one parameter: two positions give the same URL only if they are the
    same position, and the encoded position consists of unreserved
    characters and [%] alone, so it holds no [&], [=], [#], [?], [/] or
    space. *)
Theorem request_url_faithful (fen1 fen2 : string) (difficulty : nat) :
  (requestUrl fen1 difficulty = requestUrl fen2 difficulty <-> fen1 = fen2) /\
  forallb (fun c => unreserved c || Ascii.eqb c "%")
          (list_ascii_of_string (encodeURIComponent fen1)) = true.
Proof.
  split; [ split | ].
  - unfold requestUrl. intros H.
    apply string_append_inv_head in H.
    apply string_append_inv_tail in H.
    rewrite <- (@percentDecode_encode fen1
                  (Nat.max (String.length fen1) (String.length fen2))) by lia.
    rewrite H. apply percentDecode_encode. lia.
  - now intros ->.
  - induction fen1 as [|c s IH]; [ reflexivity | ].
    cbn [encodeURIComponent]. rewrite list_ascii_append, forallb_app, IH, andb_true_r.
    destruct (unreserved c) eqn:U.
    + cbn [list_ascii_of_string forallb]. now rewrite U.
    + unfold percentEncode. cbn [list_ascii_of_string forallb].
      rewrite !hexDigit_unreserved. reflexivity.
Qed.

(** ** The added properties on runs of the stub *)

(** X2 on the drawn game of the stub: the game is over and the banner
    reads "It's a draw!", though the game was drawn by repetition. *)
Lemma game_over_banner_witness :
  endOfGameContract (game (app Stub.drawnGame)) /\
  isGameOver (game (app Stub.drawnGame)) = true /\
  isThreefoldRepetition (game (app Stub.drawnGame)) = true /\
  gameEndBanner (app Stub.drawnGame) = Some "It's a draw! 🤝".
Proof.
  unfold Stub.drawnGame.
  match goal with
  | |- endOfGameContract (game (app (run ?events))) /\ _ =>
      assert (C : endOfGameContract (game (app (run events))))
        by (vm_compute; repeat split; auto)
  end.
  split; [ exact C | ].
  split; [ reflexivity | ]. split; [ reflexivity | ].
  rewrite (@game_over_banner Stub.engine _ C). reflexivity.
Defined.

(** X3 on the same game, for an engine that reports no check. *)
Lemma status_line_witness :
  endOfGameContract (game (app Stub.drawnGame)) /\
  getGameStatus (fun _ => false) (app Stub.drawnGame) = "It's a draw! 🤝".
Proof.
  unfold Stub.drawnGame.
  match goal with
  | |- endOfGameContract (game (app (run ?events))) /\ _ =>
      assert (C : endOfGameContract (game (app (run events))))
        by (vm_compute; repeat split; auto)
  end.
  split; [ exact C | ].
  rewrite (proj2 (@status_line Stub.engine (fun _ => false)) _ C). reflexivity.
Defined.

(** X5 on the request for the oracle's first move. *)
Lemma oracle_only_asked_witness :
  In "" (inflight Stub.awaitingOpening) /\ isGameOver "" = false.
Proof.
  unfold Stub.awaitingOpening.
  assert (I : In "" (inflight (run [StartNewGame W]))) by (lazy; left; reflexivity).
  split; [ exact I | ].
  exact (proj1 (@oracle_only_asked_when_to_move Stub.engine [StartNewGame W]) "" I).
Defined.

(** X7 on Black's reply to the oracle's Nf3: White, the oracle's side, is
    to move again and is asked at once. *)
Lemma manual_move_hand_over_witness :
  snd (onDrop "g8" "f6" (app Stub.afterOpening)) = true /\
  isAnalyzing (app (step Stub.afterOpening (Drop "g8" "f6"))) = true /\
  inflight (step Stub.afterOpening (Drop "g8" "f6")) = ["Nf3 Nf6 "].
Proof.
  assert (S : snd (onDrop "g8" "f6" (app Stub.afterOpening)) = true)
    by reflexivity.
  split; [ exact S | ].
  destruct (@manual_move_hand_over Stub.engine Stub.afterOpening "g8" "f6" S)
    as (_ & A & I).
  rewrite A, I. split; reflexivity.
Defined.

(** X10 on the run in which a late response of the oracle was applied. *)
Lemma board_shows_history_witness :
  exists position,
    currentPosition
      (app (run [StartNewGame B; Drop "g1" "f3"; StartNewGame B;
                 OracleSettles 0 (Stub.ok "Nf6")]))
      = Some position /\
    In position
       (positions
          (app (run [StartNewGame B; Drop "g1" "f3"; StartNewGame B;
                     OracleSettles 0 (Stub.ok "Nf6")]))).
Proof.
  exact (@board_shows_history_position Stub.engine
           [StartNewGame B; Drop "g1" "f3"; StartNewGame B;
            OracleSettles 0 (Stub.ok "Nf6")] eq_refl).
Defined.

(** X11 after two plies and a step back: three Forward clicks show the
    live position. *)
Lemma forward_reaches_live_witness :
  let y := run ([StartNewGame B; Drop "g1" "f3"; OracleSettles 0 (Stub.ok "Nf6");
                 Navigate Back] ++ repeat (Navigate Forward) 3) in
  currentMoveIndex (app y) = 2 /\ currentPosition (app y) = Some "Nf3 Nf6 ".
Proof.
  pose proof (@forward_reaches_live_position Stub.engine
                [StartNewGame B; Drop "g1" "f3"; OracleSettles 0 (Stub.ok "Nf6");
                 Navigate Back] eq_refl) as H.
  cbv zeta in H.
  assert (L : List.length
                (positions
                   (app (run [StartNewGame B; Drop "g1" "f3";
                              OracleSettles 0 (Stub.ok "Nf6"); Navigate Back])))
              = 3%nat) by reflexivity.
  rewrite L in H. destruct H as (Hc & Hd & _).
  cbv zeta. rewrite Hc, Hd. split; reflexivity.
Defined.

(** X12 after the oracle's first move: Forward is enabled, and one click
    puts the cursor on the position it shows. *)
Lemma enabled_navigation_witness :
  forwardDisabled (app Stub.afterOpening) = false /\
  currentMoveIndex (app (step Stub.afterOpening (Navigate Forward))) = 1.
Proof.
  unfold Stub.afterOpening.
  assert (F : forwardDisabled (app (run [StartNewGame W; OracleSettles 0 (Stub.ok "Nf3")]))
              = false) by reflexivity.
  split; [ exact F | ].
  rewrite (proj1 (proj1 (@enabled_navigation_moves_one Stub.engine
                           [StartNewGame W; OracleSettles 0 (Stub.ok "Nf3")] eq_refl)
                    F)).
  reflexivity.
Defined.

(** X13 on a run through the buttons. *)
Lemma no_colour_message_witness :
  uiRun mount Stub.buttonsRun = true /\
  errorMessage (app (run Stub.buttonsRun)) <> Some "Please select a color first".
Proof.
  assert (U : uiRun mount Stub.buttonsRun = true) by reflexivity.
  split; [ exact U | ].
  exact (@no_colour_message_never_shown Stub.engine Stub.buttonsRun U).
Defined.
